(** * AutoIsys Utility (src/main.py): a shallow embedding and its properties

    The configuration merge works in place on Python dicts, which are
    shared, mutable objects; it is modelled over an explicit heap of dict
    objects, so that the aliasing it creates ([current[key] = value] puts
    a default's own nested dict into [current]) is visible.  The orchestration
    steps are modelled in a writer/exception monad whose trace records
    every printed line and every external process invocation. *)

From Stdlib Require Import String Ascii ZArith.
From stdpp Require Import base gmap strings list.

Open Scope string_scope.
Set Warnings "-register-all".

(* ------------------------------------------------------------------ *)
(** ** Python objects *)

(** A dict object lives at a location of the heap. *)
Abbreviation loc := positive.

(** The values a YAML configuration parses to.  Lists are never mutated
    by the program, so they are kept as values; dicts are references. *)
Inductive pyval :=
  | PStr (s : string)
  | PBool (b : bool)
  | PInt (z : Z)
  | PNone
  | PList (xs : list pyval)
  | PDict (l : loc).

(** A dict: its entries in insertion order (Python 3.7+ dict order). *)
Abbreviation dictobj := (list (string * pyval)).

(** The heap of dict objects. *)
Abbreviation heap := (gmap loc dictobj).

(** [key in d] / [d[key]] on the entries of a dict. *)
Fixpoint assoc (k : string) (it : dictobj) : option pyval :=
  match it with
  | [] => None
  | (k', v) :: rest => if String.eqb k k' then Some v else assoc k rest
  end.

Definition dict_size (h : heap) (l : loc) : nat :=
  match h !! l with Some it => length it | None => 0 end.

(** The exceptions the modelled code can raise. *)
Inductive pyexc :=
  | TypeError
  | AttributeError
  | IndexError
  | RuntimeError    (** dict changed size during iteration *)
  | RecursionError. (** Python's recursion limit *)

(** How a computation ends: normally, by an exception, or by [sys.exit]. *)
Inductive outcome (A : Type) :=
  | Ret (a : A)
  | Exc (e : pyexc)
  | SysExit (code : Z).
Arguments Ret {A} a.
Arguments Exc {A} e.
Arguments SysExit {A} code.

(** Python's default recursion limit; [merge_config] recurses once per
    nesting level of [default]. *)
Definition recursion_limit : nat := 1000.

(* ------------------------------------------------------------------ *)
(** ** merge_config (src/main.py, lines 45-50)

<<
def merge_config(default, current):
    for key, value in default.items():
        if key not in current:
            current[key] = value
        elif isinstance(value, dict) and isinstance(current[key], dict):
            merge_config(value, current[key])
>>

    [merge_items merge default current n items h] runs the loop over the
    items of [default] (of initial size [n]).  CPython's dict iterator
    raises [RuntimeError] on each [next()] once the dict's size differs from
    its size at the start; the loop body only ever inserts keys, so while
    the size is unchanged the dict is unchanged and the remaining items are
    the ones of the snapshot [items]. *)
Fixpoint merge_items (merge : loc -> loc -> heap -> outcome heap)
    (default current : loc) (n : nat) (items : dictobj) (h : heap)
    : outcome heap :=
  if negb (Nat.eqb (dict_size h default) n) then Exc RuntimeError else
  match items with
  | [] => Ret h
  | (key, value) :: rest =>
      match h !! current with
      | None => Exc TypeError
      | Some cur =>
          match assoc key cur with
          | None =>
              (* current[key] = value : appended, shared with default *)
              merge_items merge default current n rest
                (<[current := app cur [(key, value)]]> h)
          | Some cv =>
              match value, cv with
              | PDict dl, PDict cl =>
                  match merge dl cl h with
                  | Ret h' => merge_items merge default current n rest h'
                  | Exc e => Exc e
                  | SysExit c => SysExit c
                  end
              | _, _ => merge_items merge default current n rest h
              end
          end
      end
  end.

Fixpoint merge_config (fuel : nat) (default current : loc) (h : heap)
    : outcome heap :=
  match fuel with
  | O => Exc RecursionError
  | S fuel' =>
      match h !! default with
      | None => Exc TypeError
      | Some items =>
          merge_items (merge_config fuel') default current
            (length items) items h
      end
  end.

(* ------------------------------------------------------------------ *)
(** ** DEFAULT_CONFIG (src/main.py, lines 22-41)

    The module-level constant: the top dict at [DEFAULT_CONFIG], its
    ["app"] dict at [default_app_loc], its ["system"] dict at
    [default_system_loc]. *)
Definition DEFAULT_CONFIG : loc := 1%positive.
Definition default_app_loc : loc := 2%positive.
Definition default_system_loc : loc := 3%positive.

Definition default_app : dictobj :=
  [("name", PStr "AutoIsys"); ("version", PStr "0.0.2")].

Definition default_system : dictobj :=
  [("auto_update", PBool true); ("auto_install", PBool true);
   ("install_docker", PBool true); ("enable_services", PList [PStr "docker"])].

Definition default_top : dictobj :=
  [("app", PDict default_app_loc); ("system", PDict default_system_loc);
   ("packages", PList [PStr "git"; PStr "curl"; PStr "htop"])].

(** The heap holds DEFAULT_CONFIG as declared. *)
Definition holds_default (h : heap) : Prop :=
  h !! DEFAULT_CONFIG = Some default_top /\
  h !! default_app_loc = Some default_app /\
  h !! default_system_loc = Some default_system.

Definition default_heap : heap :=
  <[DEFAULT_CONFIG := default_top]> (<[default_app_loc := default_app]>
    (<[default_system_loc := default_system]> ∅)).

Definition is_default_loc (l : loc) : Prop :=
  l = DEFAULT_CONFIG \/ l = default_app_loc \/ l = default_system_loc.

(** [current] as [load_config] gets it from [yaml.safe_load]: a dict of its
    own, whose nested dicts are allocated objects that are not
    DEFAULT_CONFIG's dicts. *)
Definition fresh_current (h : heap) (c : loc) : Prop :=
  ~ is_default_loc c /\
  exists cur, h !! c = Some cur /\
    forall k l, assoc k cur = Some (PDict l) ->
      ~ is_default_loc l /\ is_Some (h !! l).

(* ------------------------------------------------------------------ *)
(** ** Key paths *)

Inductive walk_result :=
  | Found (v : pyval)
  | Blocked          (** a prefix of the path holds a non-mapping value *)
  | Missing.

(** Follow a key path [k1.k2...] from a value. *)
Fixpoint walk (h : heap) (v : pyval) (p : list string) : walk_result :=
  match p with
  | [] => Found v
  | k :: p' =>
      match v with
      | PDict l =>
          match h !! l with
          | Some it =>
              match assoc k it with
              | Some v' => walk h v' p'
              | None => Missing
              end
          | None => Missing
          end
      | _ => Blocked
      end
  end.

(** All key paths of a dict (with a depth bound for cyclic graphs). *)
Fixpoint key_paths (fuel : nat) (h : heap) (v : pyval) : list (list string) :=
  match fuel, v with
  | S f, PDict l =>
      match h !! l with
      | Some it =>
          flat_map (fun '(k, v') => [k] :: map (cons k) (key_paths f h v')) it
      | None => []
      end
  | _, _ => []
  end.

(** The key paths of the default schema. *)
Definition DEFAULT_PATHS : list (list string) :=
  Eval vm_compute in key_paths 3 default_heap (PDict DEFAULT_CONFIG).

(* ------------------------------------------------------------------ *)
(** ** Auxiliary notions for the merge *)

Definition non_dict (v : pyval) : Prop :=
  match v with PDict _ => False | _ => True end.

(** What the loop does to [current] when no value of [default] is a dict:
    each missing key is appended, in [default]'s order. *)
Definition fill (items cur : dictobj) : dictobj :=
  fold_left (fun acc '(k, v) =>
    match assoc k acc with None => app acc [(k, v)] | Some _ => acc end)
    items cur.

(** Every dict of [h] is a prefix of the same dict in [h']: dicts only
    gain entries, at their end. *)
Definition grows (h h' : heap) : Prop :=
  forall l it, h !! l = Some it -> exists ext, h' !! l = Some (app it ext).

(** Every key of [ks] is bound in the dict at [l]. *)
Definition has_keys (h : heap) (l : loc) (ks : list string) : Prop :=
  Forall (fun k => exists it, h !! l = Some it /\ is_Some (assoc k it)) ks.

(** [current] (at [c]) binds [key]; if to a dict, that dict has [ks]. *)
Definition key_complete (h : heap) (c : loc) (key : string)
    (ks : list string) : Prop :=
  exists cur cv, h !! c = Some cur /\ assoc key cur = Some cv /\
    forall cl, cv = PDict cl -> has_keys h cl ks.

(** [current] (at [c]) has every key path of [default] (at [d]) that is
    not blocked by a non-mapping value of [current]. *)
Fixpoint complete (fuel : nat) (h : heap) (d c : loc) : Prop :=
  match fuel with
  | O => False
  | S f =>
      exists items cur, h !! d = Some items /\ h !! c = Some cur /\
        Forall (fun '(k, v) => exists cv, assoc k cur = Some cv /\
          match v, cv with
          | PDict dl, PDict cl => complete f h dl cl
          | _, _ => True
          end) items
  end.

(* ------------------------------------------------------------------ *)
(** ** Effects: printed lines, process invocations, exceptions, exit *)

Inductive event :=
  | Print (line : string)         (** one [print(...)] line *)
  | Run (cmd : list string).      (** one [subprocess.run(cmd)] *)

(** A computation: the events it performs and how it ends. *)
Definition PyM (A : Type) : Type := (list event * outcome A)%type.

Global Instance PyM_ret : MRet PyM := fun A a => ([], Ret a).
Global Instance PyM_bind : MBind PyM := fun A B k m =>
  match m with
  | (t, Ret a) => let '(t', o) := k a in (app t t', o)
  | (t, Exc e) => (t, Exc e)
  | (t, SysExit z) => (t, SysExit z)
  end.

Definition print (line : string) : PyM unit := ([Print line], Ret tt).

(** [subprocess.run(cmd)]: the child's completion is never inspected. *)
Definition run (cmd : list string) : PyM unit := ([Run cmd], Ret tt).

Definition raise {A} (e : pyexc) : PyM A := ([], Exc e).

Definition sys_exit {A} (code : Z) : PyM A := ([], SysExit code).

Definition lift {A} (o : outcome A) : PyM A := ([], o).

(** Python truthiness. *)
Definition truthy (h : heap) (v : pyval) : bool :=
  match v with
  | PStr s => negb (String.eqb s "")
  | PBool b => b
  | PInt z => negb (Z.eqb z 0)
  | PNone => false
  | PList xs => negb (Nat.eqb (length xs) 0)
  | PDict l => negb (Nat.eqb (dict_size h l) 0)
  end.

(** A new dict object ([{}], [dict.copy()]) at a location not in use. *)
Definition alloc (h : heap) (it : dictobj) : loc * heap :=
  let l := fresh (dom h) in (l, <[l := it]> h).

(* ------------------------------------------------------------------ *)
(** ** load_config (src/main.py, lines 53-68)

    The configuration file is either absent or holds a YAML document,
    represented by the value [yaml.safe_load] parses it to (its dicts in
    the heap).  [yaml.dump(x, f)] stores [x] as the file's new content. *)
Inductive config_file :=
  | NoConfigFile
  | ConfigFile (parsed : pyval).

Definition load_config (f : config_file) (h : heap)
    : PyM (heap * pyval * config_file) :=
  match f with
  | NoConfigFile =>
      print "[CONFIG] Creating config.yaml" ;;
      (* yaml.dump(DEFAULT_CONFIG, f); return DEFAULT_CONFIG.copy() *)
      match h !! DEFAULT_CONFIG with
      | None => raise TypeError
      | Some it =>
          let '(l, h1) := alloc h it in
          mret (h1, PDict l, ConfigFile (PDict DEFAULT_CONFIG))
      end
  | ConfigFile parsed =>
      (* current = yaml.safe_load(f) or {} *)
      let '(current, h1) :=
        if truthy h parsed then (parsed, h)
        else let '(l, h1) := alloc h [] in (PDict l, h1) in
      match current with
      | PDict c =>
          h2 ← lift (merge_config recursion_limit DEFAULT_CONFIG c h1);
          (* yaml.dump(current, f); return current *)
          mret (h2, PDict c, ConfigFile (PDict c))
      | _ =>
          (* [key not in current] / [current[key] = value] on a str, list,
             int or bool raises TypeError *)
          raise TypeError
      end
  end.

(** The inputs [load_config] receives in the program: no file, or a file
    parsed to a falsy value, or to a dict of its own (see
    [fresh_current]). *)
Definition loadable (h : heap) (f : config_file) : Prop :=
  match f with
  | NoConfigFile => True
  | ConfigFile v =>
      truthy h v = false \/ exists c, v = PDict c /\ fresh_current h c
  end.

(** A decision procedure for [fresh_current], to check it on examples. *)
Definition is_default_locb (l : loc) : bool :=
  bool_decide (l = DEFAULT_CONFIG) || bool_decide (l = default_app_loc)
  || bool_decide (l = default_system_loc).

Definition fresh_currentb (h : heap) (c : loc) : bool :=
  negb (is_default_locb c) &&
  match h !! c with
  | Some cur =>
      forallb (fun kv => match kv.2 with
                         | PDict l => negb (is_default_locb l) &&
                                      bool_decide (is_Some (h !! l))
                         | _ => true
                         end) cur
  | None => false
  end.

(* ------------------------------------------------------------------ *)
(** ** The environment the program probes *)

Record env := {
  platform_system : string;          (** [platform.system()] *)
  which : string -> bool;            (** [shutil.which(cmd) is not None] *)
  os_release : option (list string); (** the lines of /etc/os-release as
                                         Python iterates them (with their
                                         newline); [None]: FileNotFoundError *)
  mac_version : string               (** [platform.mac_ver()[0]] *)
}.

(* ------------------------------------------------------------------ *)
(** ** String helpers *)

(** [line.split("=", 1)[1]]; [None] when the line has no ["="]. *)
Fixpoint after_first_eq (s : string) : option string :=
  match s with
  | EmptyString => None
  | String c rest => if Ascii.eqb c "=" then Some rest else after_first_eq rest
  end.

(** [str.isspace] on ASCII: \t \n \v \f \r, \x1c-\x1f and space. *)
Definition is_space (c : ascii) : bool :=
  let n := nat_of_ascii c in
  (Nat.leb 9 n && Nat.leb n 13) || (Nat.leb 28 n && Nat.leb n 32).

(** The double-quote character (code 34). *)
Definition is_quote (c : ascii) : bool := Ascii.eqb c (ascii_of_nat 34).

Fixpoint drop_while (p : ascii -> bool) (cs : list ascii) : list ascii :=
  match cs with
  | [] => []
  | c :: cs' => if p c then drop_while p cs' else cs
  end.

(** [s.strip(chars)]: drop the characters satisfying [p] at both ends. *)
Definition strip_chars (p : ascii -> bool) (s : string) : string :=
  string_of_list_ascii
    (rev (drop_while p (rev (drop_while p (list_ascii_of_string s))))).

Fixpoint string_of_N_aux (fuel : nat) (n : N) (acc : string) : string :=
  match fuel with
  | O => acc
  | S f =>
      let acc' := String (ascii_of_N (48 + N.modulo n 10)) acc in
      if N.ltb n 10 then acc' else string_of_N_aux f (N.div n 10) acc'
  end.

(** [str(z)] for an int. *)
Definition string_of_Z (z : Z) : string :=
  let digits n := string_of_N_aux (S (N.size_nat n)) n "" in
  if Z.ltb z 0 then String "-" (digits (Z.to_N (- z))) else digits (Z.to_N z).

(** [str(v)] for the scalar values; [None] for containers. *)
Definition py_str (v : pyval) : option string :=
  match v with
  | PStr s => Some s
  | PBool true => Some "True"
  | PBool false => Some "False"
  | PInt z => Some (string_of_Z z)
  | PNone => Some "None"
  | PList _ | PDict _ => None
  end.

(** A lowercase hexadecimal digit. *)
Definition hex_digit (n : nat) : ascii :=
  match String.get n "0123456789abcdef" with Some c => c | None => "0"%char end.

(** One character inside [repr(s)] quoted with [q]: the backslash and
    the quote are escaped, tab, newline and carriage return by name, and
    the other non-printable characters (read as code points 0-255) as
    [\xNN]. *)
Definition repr_char (q c : ascii) : string :=
  let n := nat_of_ascii c in
  if Ascii.eqb c "\"%char then "\\"
  else if Ascii.eqb c q then String "\"%char (String q EmptyString)
  else if Nat.eqb n 9 then "\t"
  else if Nat.eqb n 10 then "\n"
  else if Nat.eqb n 13 then "\r"
  else if Nat.ltb n 32 || Nat.eqb n 127 || (Nat.leb 128 n && Nat.leb n 160)
          || Nat.eqb n 173 then
    String "\"%char (String "x"%char
      (String (hex_digit (n / 16)) (String (hex_digit (n mod 16)) EmptyString)))
  else String c EmptyString.

(** [repr(s)] for a string: single quotes, unless [s] has a single quote
    and no double quote. *)
Definition repr_str (s : string) : string :=
  let cs := list_ascii_of_string s in
  let q := if existsb (fun c => Ascii.eqb c "'"%char) cs
              && negb (existsb is_quote cs)
           then ascii_of_nat 34 else "'"%char in
  String q (String.concat "" (map (repr_char q) cs) ++ String q EmptyString).

(** [str(v)] of a list or dict: the [repr] of its items; a dict already
    being printed shows as [{...}].  The fuel bounds the nesting of dicts,
    which [stack] keeps distinct: [size h + 1] never runs out. *)
Fixpoint py_repr (fuel : nat) (h : heap) (stack : list loc) (v : pyval)
    : string :=
  match fuel with
  | O => "{...}"
  | S f =>
      let fix go (v : pyval) : string :=
        match v with
        | PStr s => repr_str s
        | PBool b => if b then "True" else "False"
        | PInt z => string_of_Z z
        | PNone => "None"
        | PList xs => "[" ++ String.concat ", " (map go xs) ++ "]"
        | PDict l =>
            if existsb (Pos.eqb l) stack then "{...}" else
            match h !! l with
            | Some it =>
                "{" ++ String.concat ", "
                         (map (fun kv => repr_str kv.1 ++ ": "
                                         ++ py_repr f h (l :: stack) kv.2) it)
                    ++ "}"
            | None => "{}"
            end
        end in
      go v
  end.

(** [str(v)] for every value. *)
Definition py_format (h : heap) (v : pyval) : string :=
  match py_str v with
  | Some s => s
  | None => py_repr (S (size h)) h [] v
  end.

(* ------------------------------------------------------------------ *)
(** ** Dict access and iteration *)

(** [obj.get(key)]: [None] when absent. *)
Definition dict_get_opt (h : heap) (obj : pyval) (key : string)
    : PyM (option pyval) :=
  match obj with
  | PDict l =>
      match h !! l with
      | Some it => mret (assoc key it)
      | None => raise TypeError
      end
  | _ => raise AttributeError  (** [.get] of a non-dict *)
  end.

(** [obj.get(key, dflt)]. *)
Definition dict_get (h : heap) (obj : pyval) (key : string) (dflt : pyval)
    : PyM pyval :=
  o ← dict_get_opt h obj key;
  mret (match o with Some v => v | None => dflt end).

(** [config.get("system", {}).get(key, dflt)]: on the literal [{}] the
    second [.get] returns [dflt]. *)
Definition get_system_setting (h : heap) (config : pyval) (key : string)
    (dflt : pyval) : PyM pyval :=
  sys ← dict_get_opt h config "system";
  match sys with
  | None => mret dflt
  | Some s => dict_get h s key dflt
  end.

(** [for x in v]: lists yield their items, strings their characters,
    dicts their keys; other values raise TypeError. *)
Definition py_iter (h : heap) (v : pyval) : PyM (list pyval) :=
  match v with
  | PList xs => mret xs
  | PStr s => mret (map (fun c => PStr (String c EmptyString))
                        (list_ascii_of_string s))
  | PDict l =>
      match h !! l with
      | Some it => mret (map (fun kv => PStr kv.1) it)
      | None => raise TypeError
      end
  | _ => raise TypeError
  end.

(** A lookup in one of the dispatch tables. *)
Fixpoint table_get {A} (k : string) (tbl : list (string * A)) : option A :=
  match tbl with
  | [] => None
  | (k', a) :: rest => if String.eqb k k' then Some a else table_get k rest
  end.

(* ------------------------------------------------------------------ *)
(** ** logo, get_linux_distro, check_os (src/main.py, lines 10-94) *)

Definition logo : PyM unit :=
  print "==============================================" ;;
  print "              AutoIsys Utility" ;;
  print "==============================================".

Fixpoint find_pretty_name (lines : list string) : PyM (option string) :=
  match lines with
  | [] => mret None  (** the loop ends: the function returns None *)
  | line :: rest =>
      if String.prefix "PRETTY_NAME" line then
        match after_first_eq line with
        | None => raise IndexError
        | Some v => mret (Some (strip_chars is_quote (strip_chars is_space v)))
        end
      else find_pretty_name rest
  end.

(** [get_linux_distro()]: [None] stands for Python's [None]. *)
Definition get_linux_distro (e : env) : PyM (option string) :=
  match os_release e with
  | None => mret (Some "Unknown Linux")  (** except FileNotFoundError *)
  | Some lines => find_pretty_name lines
  end.

Definition check_os (e : env) : PyM unit :=
  let system := platform_system e in
  if String.eqb system "Linux" then
    d ← get_linux_distro e;
    print ("OS: " ++ match d with Some s => s | None => "None" end)
  else if String.eqb system "Darwin" then
    print ("OS: macOS " ++ mac_version e)
  else
    print "Unsupported OS" ;; sys_exit 1.

(* ------------------------------------------------------------------ *)
(** ** detect_package_manager (src/main.py, lines 98-127) *)

(** The Linux candidates, in the dict's (insertion) order: executable and
    identity. *)
Definition managers : list (string * string) :=
  [("pacman", "pacman"); ("apt", "apt"); ("dnf", "dnf"); ("yum", "yum");
   ("zypper", "zypper"); ("apk", "apk"); ("emerge", "emerge");
   ("xbps-install", "xbps"); ("nix-env", "nix")].

Fixpoint first_present (present : string -> bool)
    (ms : list (string * string)) : option string :=
  match ms with
  | [] => None
  | (cmd, name) :: rest =>
      if present cmd then Some name else first_present present rest
  end.

Definition detect_package_manager (e : env) : string :=
  let system := platform_system e in
  if String.eqb system "Linux" then
    match first_present (which e) managers with
    | Some name => name
    | None => "unknown-linux"
    end
  else if String.eqb system "Darwin" then
    if which e "brew" then "brew"
    else if which e "port" then "macports"
    else "unknown-macos"
  else "unsupported-os".

(* ------------------------------------------------------------------ *)
(** ** auto_update_system (src/main.py, lines 131-153) *)

Definition update_commands : list (string * list string) :=
  [("pacman", ["sudo"; "pacman"; "-Syu"]);
   ("apt", ["sudo"; "apt"; "update"]);
   ("dnf", ["sudo"; "dnf"; "upgrade"; "-y"]);
   ("yum", ["sudo"; "yum"; "update"; "-y"]);
   ("apk", ["sudo"; "apk"; "upgrade"]);
   ("brew", ["brew"; "update"])].

Definition auto_update_system (h : heap) (config : pyval) (e : env)
    : PyM unit :=
  flag ← get_system_setting h config "auto_update" (PBool false);
  if negb (truthy h flag) then print "[INFO] Auto update disabled" else
  let pm := detect_package_manager e in
  match table_get pm update_commands with
  | None => print ("[WARN] Auto update not supported for: " ++ pm)
  | Some cmd => print ("[RUN] " ++ String.concat " " cmd) ;; run cmd
  end.

(* ------------------------------------------------------------------ *)
(** ** install_docker (src/main.py, lines 157-178) *)

Definition docker_packages : list (string * list string) :=
  [("pacman", ["sudo"; "pacman"; "-S"; "--noconfirm"; "docker"]);
   ("apt", ["sudo"; "apt"; "install"; "-y"; "docker.io"]);
   ("dnf", ["sudo"; "dnf"; "install"; "-y"; "docker"]);
   ("yum", ["sudo"; "yum"; "install"; "-y"; "docker"]);
   ("apk", ["sudo"; "apk"; "add"; "docker"]);
   ("brew", ["brew"; "install"; "--cask"; "docker"])].

Definition install_docker (h : heap) (config : pyval) (e : env) : PyM unit :=
  flag ← get_system_setting h config "install_docker" (PBool false);
  if negb (truthy h flag) then print "[INFO] Docker install disabled" else
  let pm := detect_package_manager e in
  match table_get pm docker_packages with
  | None => print ("[WARN] Docker install not supported for: " ++ pm)
  | Some cmd => print "[INFO] Installing Docker" ;; run cmd
  end.

(* ------------------------------------------------------------------ *)
(** ** enable_services (src/main.py, lines 182-195) *)

(** The loop body on each service: the f-string prints [str(service)],
    then [subprocess.run] raises TypeError on an argument that is not a
    string. *)
Fixpoint enable_each (h : heap) (services : list pyval) : PyM unit :=
  match services with
  | [] => mret tt
  | PStr s :: rest =>
      print ("[SERVICE] Enabling " ++ s) ;;
      run ["sudo"; "systemctl"; "enable"; "--now"; s] ;;
      enable_each h rest
  | v :: _ => print ("[SERVICE] Enabling " ++ py_format h v) ;; raise TypeError
  end.

Definition enable_services (h : heap) (config : pyval) (e : env) : PyM unit :=
  services ← get_system_setting h config "enable_services" (PList []);
  if negb (truthy h services) then print "[INFO] No services to enable" else
  if negb (which e "systemctl") then print "[WARN] systemd not detected" else
  xs ← py_iter h services;
  enable_each h xs.

(* ------------------------------------------------------------------ *)
(** ** is_installed, auto_install_packages (src/main.py, lines 199-238) *)

Definition is_installed (e : env) (pkg : string) : bool := which e pkg.

Definition INSTALL_COMMANDS : list (string * (string -> list string)) :=
  [("pacman", fun p => ["sudo"; "pacman"; "-S"; "--noconfirm"; p]);
   ("apt", fun p => ["sudo"; "apt"; "install"; "-y"; p]);
   ("dnf", fun p => ["sudo"; "dnf"; "install"; "-y"; p]);
   ("yum", fun p => ["sudo"; "yum"; "install"; "-y"; p]);
   ("apk", fun p => ["sudo"; "apk"; "add"; p]);
   ("brew", fun p => ["brew"; "install"; p])].

(** The [for pkg in packages] loop; [shutil.which] raises TypeError on a
    non-string. *)
Fixpoint install_each (e : env) (mk : string -> list string)
    (pkgs : list pyval) : PyM unit :=
  match pkgs with
  | [] => mret tt
  | PStr pkg :: rest =>
      (if is_installed e pkg then
         print ("[OK] " ++ pkg ++ " already installed")
       else
         let cmd := mk pkg in
         print ("[INSTALL] " ++ String.concat " " cmd) ;; run cmd) ;;
      install_each e mk rest
  | _ :: _ => raise TypeError
  end.

Definition auto_install_packages (h : heap) (config : pyval) (e : env)
    : PyM unit :=
  flag ← get_system_setting h config "auto_install" (PBool false);
  if negb (truthy h flag) then print "[INFO] Auto install disabled" else
  packages ← dict_get h config "packages" (PList []);
  if negb (truthy h packages) then print "[INFO] No packages to install" else
  let pm := detect_package_manager e in
  match table_get pm INSTALL_COMMANDS with
  | None => print ("[WARN] Package manager not supported: " ++ pm)
  | Some mk =>
      print ("[INFO] Installing packages using: " ++ pm) ;;
      pkgs ← py_iter h packages;
      install_each e mk pkgs
  end.

(* ------------------------------------------------------------------ *)
(** ** main and the module's top level (src/main.py, lines 71, 242-251) *)

Definition main (h : heap) (config : pyval) (e : env) : PyM unit :=
  logo ;;
  check_os e ;;
  auto_update_system h config e ;;
  install_docker h config e ;;
  auto_install_packages h config e ;;
  enable_services h config e.

(** [config = load_config()] at import, then [main()]. *)
Definition program (f : config_file) (h : heap) (e : env) : PyM unit :=
  '(h1, config, _) ← load_config f h;
  main h1 config e.

Definition banner : list event :=
  [Print "=============================================="; 
   Print "              AutoIsys Utility";
   Print "=============================================="].

(* ------------------------------------------------------------------ *)
(** ** Concrete inputs *)

(** A parsed config.yaml: [{app: "custom", system: {auto_update: false}}],
    its top dict at 4 and its ["system"] dict at 5. *)
Definition user_heap : heap :=
  <[4%positive := [("app", PStr "custom"); ("system", PDict 5%positive)]]>
  (<[5%positive := [("auto_update", PBool false)]]> default_heap).

(** Shared dicts: [default = {a: {x: 1}, b: B}], [current = {a: B}] with
    [B = {}] one object. *)
Definition aliased_heap : heap :=
  <[1%positive := [("a", PDict 2%positive); ("b", PDict 3%positive)]]>
  (<[2%positive := [("x", PInt 1)]]>
  (<[3%positive := []]>
  (<[4%positive := [("a", PDict 3%positive)]]> ∅))).

(** [key] is absent from the ["system"] mapping of a config dict with
    entries [it], or the ["system"] mapping itself is absent. *)
Definition setting_absent (h : heap) (it : dictobj) (key : string) : Prop :=
  assoc "system" it = None \/
  exists s sit, assoc "system" it = Some (PDict s) /\ h !! s = Some sit /\
    assoc key sit = None.

(** A newline character. *)
Definition nl : string := String (ascii_of_nat 10) EmptyString.

(** A Linux host whose /etc/os-release has no PRETTY_NAME line. *)
Definition host_without_pretty_name : env := {|
  platform_system := "Linux";
  which := fun _ => false;
  os_release := Some ["NAME=Arch Linux" ++ nl; "ID=arch" ++ nl];
  mac_version := "" |}.

(** A Linux host with pacman, apt and git on the path. *)
Definition arch_host : env := {|
  platform_system := "Linux";
  which := fun cmd => String.eqb cmd "pacman" || String.eqb cmd "apt"
                      || String.eqb cmd "git";
  os_release := Some ["PRETTY_NAME=" ++ String (ascii_of_nat 34) "Arch Linux"
                      ++ String (ascii_of_nat 34) nl];
  mac_version := "" |}.

(** A Linux host with none of the package managers. *)
Definition bare_host : env := {|
  platform_system := "Linux";
  which := fun _ => false;
  os_release := None;
  mac_version := "" |}.

Definition windows_host : env := {|
  platform_system := "Windows";
  which := fun _ => false;
  os_release := None;
  mac_version := "" |}.

(** A configuration dict at 10: [{system: {auto_update: true,
    install_docker: true, auto_install: true}, packages: [git, curl]}]. *)
Definition cfg_heap : heap :=
  <[10%positive := [("system", PDict 11%positive);
                    ("packages", PList [PStr "git"; PStr "curl"])]]>
  (<[11%positive := [("auto_update", PBool true); ("install_docker", PBool true);
                     ("auto_install", PBool true)]]> ∅).

(** An empty configuration dict at 10. *)
Definition empty_cfg_heap : heap := <[10%positive := []]> ∅.

(** The heap merge_config(DEFAULT_CONFIG, current) leaves on [user_heap]. *)
Definition merged_user_heap : heap :=
  match merge_config recursion_limit DEFAULT_CONFIG 4%positive user_heap with
  | Ret h' => h'
  | _ => ∅
  end.

(** A Linux host whose /etc/os-release has a PRETTY_NAME line without
    [=]. *)
Definition bad_pretty_name_host : env := {|
  platform_system := "Linux";
  which := fun _ => false;
  os_release := Some ["NAME=Arch Linux" ++ nl; "PRETTY_NAME" ++ nl];
  mac_version := "" |}.

(** A Linux host with pacman, systemctl and git on the path. *)
Definition systemd_host : env := {|
  platform_system := "Linux";
  which := fun cmd => String.eqb cmd "pacman" || String.eqb cmd "systemctl"
                      || String.eqb cmd "git";
  os_release := os_release arch_host;
  mac_version := "" |}.

(** [{system: {auto_install: true}, packages: "vim"}]. *)
Definition str_pkgs_heap : heap :=
  <[10%positive := [("system", PDict 11%positive); ("packages", PStr "vim")]]>
  (<[11%positive := [("auto_install", PBool true)]]> ∅).

(** [{system: {auto_install: true}, packages: [git, 7, curl]}]. *)
Definition bad_pkgs_heap : heap :=
  <[10%positive := [("system", PDict 11%positive);
                    ("packages", PList [PStr "git"; PInt 7; PStr "curl"])]]>
  (<[11%positive := [("auto_install", PBool true)]]> ∅).

(** [{system: true}]. *)
Definition scalar_system_heap : heap :=
  <[10%positive := [("system", PBool true)]]> ∅.

(** [{system: {enable_services: [docker, sshd]}}]. *)
Definition services_heap : heap :=
  <[10%positive := [("system", PDict 11%positive)]]>
  (<[11%positive := [("enable_services", PList [PStr "docker"; PStr "sshd"])]]> ∅).


(* ================================================================== *)
(** * Properties *)

Example default_paths_value :
  DEFAULT_PATHS =
    [["app"]; ["app"; "name"]; ["app"; "version"];
     ["system"]; ["system"; "auto_update"]; ["system"; "auto_install"];
     ["system"; "install_docker"]; ["system"; "enable_services"];
     ["packages"]].
Proof. reflexivity. Qed.

Example merge_into_empty :
  match merge_config recursion_limit DEFAULT_CONFIG 4
          (<[4%positive := []]> default_heap) with
  | Ret h => h !! 4%positive = Some default_top
  | _ => False
  end.
Proof. vm_compute. reflexivity. Qed.

(* ------------------------------------------------------------------ *)
(** ** Lemmas on dict entries *)

Lemma assoc_app_l k it ext v :
  assoc k it = Some v -> assoc k (app it ext) = Some v.
Proof.
  induction it as [|[k' v'] it IH]; simpl; [discriminate|].
  destruct (String.eqb k k'); auto.
Qed.

Lemma assoc_app_r k it ext :
  assoc k it = None -> assoc k (app it ext) = assoc k ext.
Proof.
  induction it as [|[k' v'] it IH]; simpl; [reflexivity|].
  destruct (String.eqb k k'); [discriminate|auto].
Qed.

Lemma assoc_snoc_ne k key v it :
  k <> key -> assoc k (app it [(key, v)]) = assoc k it.
Proof.
  intros Hne. destruct (assoc k it) eqn:E.
  - now apply assoc_app_l.
  - rewrite assoc_app_r by exact E. simpl.
    destruct (String.eqb k key) eqn:Ek; [|reflexivity].
    apply String.eqb_eq in Ek. contradiction.
Qed.

Lemma assoc_snoc_eq key v it :
  assoc key it = None -> assoc key (app it [(key, v)]) = Some v.
Proof.
  intros E. rewrite assoc_app_r by exact E. simpl.
  now rewrite String.eqb_refl.
Qed.

Lemma fill_ext items : forall cur, exists ext, fill items cur = app cur ext.
Proof.
  induction items as [|[k v] items IH]; intros cur; simpl.
  - exists []. now rewrite app_nil_r.
  - destruct (assoc k cur).
    + apply IH.
    + destruct (IH (app cur [(k, v)])) as [ext E]. rewrite E.
      exists ((k, v) :: ext). now rewrite <- app_assoc.
Qed.

Lemma fill_other items : forall cur k,
  ~ In k (map fst items) -> assoc k (fill items cur) = assoc k cur.
Proof.
  induction items as [|[k' v] items IH]; intros cur k Hk; simpl in *;
    [reflexivity|].
  destruct (assoc k' cur); rewrite IH by tauto; [reflexivity|].
  apply assoc_snoc_ne. intros ->. tauto.
Qed.

Lemma fill_has items : forall cur k,
  In k (map fst items) -> is_Some (assoc k (fill items cur)).
Proof.
  induction items as [|[k' v] items IH]; intros cur k Hk; simpl in *;
    [contradiction|].
  destruct Hk as [->|Hk]; [|now apply IH].
  destruct (fill_ext items (match assoc k cur with
                            | Some _ => cur | None => app cur [(k, v)] end))
    as [ext ->].
  destruct (assoc k cur) eqn:E.
  - rewrite (assoc_app_l _ _ _ _ E). eauto.
  - rewrite (assoc_app_l _ _ _ v); [eauto|]. now apply assoc_snoc_eq.
Qed.

Lemma own_keys items k :
  In k (map fst items) -> is_Some (assoc k items).
Proof.
  induction items as [|[k' v] items IH]; simpl; [contradiction|].
  intros [<-|Hk].
  - rewrite String.eqb_refl. eauto.
  - destruct (String.eqb k k'); eauto.
Qed.

(* ------------------------------------------------------------------ *)
(** ** Lemmas on [grows] *)

Lemma grows_refl h : grows h h.
Proof. intros l it E. exists []. now rewrite app_nil_r. Qed.

Lemma grows_trans h1 h2 h3 : grows h1 h2 -> grows h2 h3 -> grows h1 h3.
Proof.
  intros G1 G2 l it E. destruct (G1 _ _ E) as [e1 E1].
  destruct (G2 _ _ E1) as [e2 E2]. exists (app e1 e2).
  now rewrite app_assoc.
Qed.

Lemma grows_insert h l it ext :
  h !! l = Some it -> grows h (<[l := app it ext]> h).
Proof.
  intros E l' it' E'. destruct (decide (l = l')) as [<-|Hne].
  - rewrite lookup_insert_eq. rewrite E in E'. injection E' as <-. eauto.
  - rewrite lookup_insert_ne by exact Hne. exists []. now rewrite app_nil_r.
Qed.

Lemma has_keys_grows h h' l ks :
  grows h h' -> has_keys h l ks -> has_keys h' l ks.
Proof.
  intros G. unfold has_keys. intros HF. eapply Forall_impl; [exact HF|].
  intros k (it & E & v & Hv). destruct (G _ _ E) as [ext E'].
  exists (app it ext). split; [exact E'|]. exists v. now apply assoc_app_l.
Qed.

Lemma key_complete_grows h h' c key ks :
  grows h h' -> key_complete h c key ks -> key_complete h' c key ks.
Proof.
  intros G (cur & cv & E & A & K). destruct (G _ _ E) as [ext E'].
  exists (app cur ext), cv. split; [exact E'|]. split; [now apply assoc_app_l|].
  intros cl ->. eapply has_keys_grows; eauto.
Qed.

(** merge_config only appends entries to dicts. *)
Lemma merge_items_grows m d c n :
  (forall dl cl h h', m dl cl h = Ret h' -> grows h h') ->
  forall items h h', merge_items m d c n items h = Ret h' -> grows h h'.
Proof.
  intros Hm items. induction items as [|[key value] rest IH]; intros h h' E;
    simpl in E; destruct (negb _); try discriminate.
  - injection E as <-. apply grows_refl.
  - destruct (h !! c) as [cur|] eqn:Ec; [|discriminate].
    destruct (assoc key cur) as [cv|].
    + destruct value; try (eapply IH; exact E).
      destruct cv; try (eapply IH; exact E).
      destruct (m l l0 h) as [h1| |] eqn:Em; try discriminate.
      eapply grows_trans; [eapply Hm; exact Em|]. eapply IH; exact E.
    + eapply grows_trans; [apply (grows_insert _ _ _ [(key, value)] Ec)|].
      eapply IH; exact E.
Qed.

Lemma merge_config_grows fuel :
  forall d c h h', merge_config fuel d c h = Ret h' -> grows h h'.
Proof.
  induction fuel as [|fuel IH]; intros d c h h' E; simpl in E; [discriminate|].
  destruct (h !! d); [|discriminate].
  eapply merge_items_grows; [exact IH|exact E].
Qed.

(** The loop when no value of [default] is a dict and [current] is
    another dict: [current] becomes [fill items cur]. *)
Lemma merge_items_flat m d x n items : forall h cur,
  dict_size h d = n -> x <> d ->
  Forall (fun kv => non_dict kv.2) items -> h !! x = Some cur ->
  merge_items m d x n items h = Ret (<[x := fill items cur]> h).
Proof.
  induction items as [|[k v] items IH]; intros h cur Hs Hx Hf Ec;
    cbn [merge_items]; rewrite Hs, Nat.eqb_refl; cbn [negb].
  - simpl. now rewrite insert_id.
  - rewrite Ec. apply Forall_cons in Hf as [Hv Hf']. simpl in Hv.
    simpl fill. destruct (assoc k cur) eqn:Ea.
    + destruct v; try contradiction; apply IH; auto.
    + rewrite (IH _ (app cur [(k, v)])).
      * now rewrite insert_insert_eq.
      * unfold dict_size. rewrite lookup_insert_ne by congruence.
        exact Hs.
      * exact Hx.
      * exact Hf'.
      * apply lookup_insert_eq.
Qed.

Lemma merge_flat f d x h items cur :
  h !! d = Some items -> Forall (fun kv => non_dict kv.2) items ->
  h !! x = Some cur -> x <> d ->
  merge_config (S f) d x h = Ret (<[x := fill items cur]> h).
Proof.
  intros Hd Hf Ex Hx. cbn [merge_config]. rewrite Hd.
  apply merge_items_flat; auto. unfold dict_size. now rewrite Hd.
Qed.

(** On a [current] that already has every key path, merge_config changes
    nothing. *)
Lemma merge_items_noop m d c n h cur :
  dict_size h d = n -> h !! c = Some cur ->
  forall items,
  Forall (fun '(k, v) => exists cv, assoc k cur = Some cv /\
    match v, cv with
    | PDict dl, PDict cl => m dl cl h = Ret h
    | _, _ => True
    end) items ->
  merge_items m d c n items h = Ret h.
Proof.
  intros Hs Ec items. induction items as [|[k v] items IH]; intros Hf;
    cbn [merge_items]; rewrite Hs, Nat.eqb_refl; cbn [negb]; [reflexivity|].
  rewrite Ec. apply Forall_cons in Hf as [(cv & Ea & Hv) Hf'].
  rewrite Ea. destruct v; try (apply IH; exact Hf').
  destruct cv; try (apply IH; exact Hf').
  rewrite Hv. apply IH. exact Hf'.
Qed.

Lemma complete_noop fuel :
  forall h d c, complete fuel h d c -> merge_config fuel d c h = Ret h.
Proof.
  induction fuel as [|f IH]; intros h d c Hc; [contradiction|].
  destruct Hc as (items & cur & Ed & Ec & Hf).
  cbn [merge_config]. rewrite Ed.
  eapply merge_items_noop; [unfold dict_size; now rewrite Ed|exact Ec|].
  eapply Forall_impl; [exact Hf|]. intros [k v] (cv & Ea & Hv).
  exists cv. split; [exact Ea|].
  destruct v; auto. destruct cv; auto.
Qed.

(* ------------------------------------------------------------------ *)
(** ** Running merge_config(DEFAULT_CONFIG, current) *)

Lemma has_keys_fill h l items cur :
  h !! l = Some (fill items cur) -> has_keys h l (map fst items).
Proof.
  intros E. apply Forall_forall. intros k Hk. exists (fill items cur).
  split; [exact E|]. apply list_elem_of_In in Hk. now apply fill_has.
Qed.

Lemma has_keys_own h l items :
  h !! l = Some items -> has_keys h l (map fst items).
Proof.
  intros E. apply Forall_forall. intros k Hk. exists items.
  split; [exact E|]. apply list_elem_of_In in Hk. now apply own_keys.
Qed.

Lemma default_loc_ne l c :
  is_default_loc l -> ~ is_default_loc c -> c <> l.
Proof. intros Hl Hc ->. contradiction. Qed.

(** One item of DEFAULT_CONFIG whose value is one of its nested dicts. *)
Lemma step_dict f n key dl ditems rest h c cur :
  dict_size h DEFAULT_CONFIG = n ->
  h !! dl = Some ditems -> Forall (fun kv => non_dict kv.2) ditems ->
  h !! c = Some cur -> ~ is_default_loc c -> is_default_loc dl ->
  (forall l, assoc key cur = Some (PDict l) ->
     ~ is_default_loc l /\ is_Some (h !! l)) ->
  exists h1,
    merge_items (merge_config (S f)) DEFAULT_CONFIG c n
      ((key, PDict dl) :: rest) h =
    merge_items (merge_config (S f)) DEFAULT_CONFIG c n rest h1 /\
    grows h h1 /\
    (forall l, is_default_loc l -> h1 !! l = h !! l) /\
    (assoc key cur = None ->
       exists cur1, h1 !! c = Some cur1 /\ assoc key cur1 = Some (PDict dl)) /\
    key_complete h1 c key (map fst ditems) /\
    (exists cur1, h1 !! c = Some cur1 /\
       forall k, k <> key -> ~ In k (map fst ditems) ->
         assoc k cur1 = assoc k cur).
Proof.
  intros Hs Hd Hf Ec Hc Hdl Hfr.
  cbn [merge_items]. rewrite Hs, Nat.eqb_refl. cbn [negb]. rewrite Ec.
  destruct (assoc key cur) as [cv|] eqn:Ea.
  - destruct cv as [s|b|z| |xs|x];
      [exists h; split; [reflexivity|];
       split; [apply grows_refl|]; split; [reflexivity|];
       split; [intros Hn; congruence|];
       split; [exists cur; eexists; split; [exact Ec|]; split; [exact Ea|];
               intros cl Hcl; discriminate|];
       exists cur; split; [exact Ec|]; reflexivity ..|].
    destruct (Hfr x eq_refl) as [Hx [curx Ex]].
    assert (Hxd : x <> dl) by (intros ->; contradiction).
    rewrite (merge_flat f dl x h ditems curx Hd Hf Ex Hxd).
    exists (<[x := fill ditems curx]> h). split; [reflexivity|].
    destruct (fill_ext ditems curx) as [ext Eext].
    split; [rewrite Eext; now apply grows_insert|].
    split.
    { intros l Hl. apply lookup_insert_ne. intros ->. contradiction. }
    split; [intros Hn; congruence|].
    destruct (decide (x = c)) as [->|Hxc].
    + rewrite Ec in Ex. injection Ex as <-.
      split.
      * exists (fill ditems cur), (PDict c).
        split; [apply lookup_insert_eq|]. split.
        { rewrite Eext. now apply assoc_app_l. }
        intros cl Hcl. injection Hcl as <-.
        apply (has_keys_fill _ _ _ cur). apply lookup_insert_eq.
      * exists (fill ditems cur). split; [apply lookup_insert_eq|].
        intros k _ Hk. now apply fill_other.
    + split.
      * exists cur, (PDict x).
        split; [rewrite lookup_insert_ne by congruence; exact Ec|].
        split; [exact Ea|].
        intros cl Hcl. injection Hcl as <-.
        apply (has_keys_fill _ _ _ curx). apply lookup_insert_eq.
      * exists cur. split; [|reflexivity].
        rewrite lookup_insert_ne by congruence. exact Ec.
  - exists (<[c := app cur [(key, PDict dl)]]> h). split; [reflexivity|].
    split; [now apply grows_insert|].
    split.
    { intros l Hl. apply lookup_insert_ne. now apply default_loc_ne. }
    split.
    { intros _. exists (app cur [(key, PDict dl)]).
      split; [apply lookup_insert_eq|now apply assoc_snoc_eq]. }
    split.
    + exists (app cur [(key, PDict dl)]), (PDict dl).
      split; [apply lookup_insert_eq|].
      split; [now apply assoc_snoc_eq|].
      intros cl Hcl. injection Hcl as <-. apply has_keys_own.
      rewrite lookup_insert_ne by (now apply default_loc_ne). exact Hd.
    + exists (app cur [(key, PDict dl)]). split; [apply lookup_insert_eq|].
      intros k Hk _. now apply assoc_snoc_ne.
Qed.

(** One item of DEFAULT_CONFIG whose value is not a dict. *)
Lemma step_atom m n key v rest h c cur :
  dict_size h DEFAULT_CONFIG = n -> non_dict v ->
  h !! c = Some cur -> ~ is_default_loc c ->
  exists h1,
    merge_items m DEFAULT_CONFIG c n ((key, v) :: rest) h =
    merge_items m DEFAULT_CONFIG c n rest h1 /\
    grows h h1 /\
    (forall l, is_default_loc l -> h1 !! l = h !! l) /\
    key_complete h1 c key [] /\
    (exists cur1, h1 !! c = Some cur1 /\
       forall k, k <> key -> assoc k cur1 = assoc k cur).
Proof.
  intros Hs Hv Ec Hc.
  cbn [merge_items]. rewrite Hs, Nat.eqb_refl. cbn [negb]. rewrite Ec.
  destruct (assoc key cur) as [cv|] eqn:Ea.
  - exists h. split; [destruct v; try contradiction; reflexivity|].
    split; [apply grows_refl|]. split; [reflexivity|].
    split; [exists cur, cv; repeat split; auto; intros; constructor|].
    exists cur. split; [exact Ec|reflexivity].
  - exists (<[c := app cur [(key, v)]]> h). split; [reflexivity|].
    split; [now apply grows_insert|].
    split.
    { intros l Hl. apply lookup_insert_ne. now apply default_loc_ne. }
    split.
    + exists (app cur [(key, v)]), v.
      split; [apply lookup_insert_eq|].
      split; [now apply assoc_snoc_eq|]. intros; constructor.
    + exists (app cur [(key, v)]). split; [apply lookup_insert_eq|].
      intros k Hk. now apply assoc_snoc_ne.
Qed.

Lemma merge_config_unfold f d c h :
  merge_config (S f) d c h =
  match h !! d with
  | None => Exc TypeError
  | Some items =>
      merge_items (merge_config f) d c (length items) items h
  end.
Proof. reflexivity. Qed.

Lemma default_locs_unchanged_size h h1 :
  (forall l, is_default_loc l -> h1 !! l = h !! l) ->
  dict_size h1 DEFAULT_CONFIG = dict_size h DEFAULT_CONFIG.
Proof.
  intros D. unfold dict_size. rewrite D; [reflexivity|]. now left.
Qed.

Lemma is_default_app : is_default_loc default_app_loc.
Proof. right. now left. Qed.

Lemma is_default_system : is_default_loc default_system_loc.
Proof. right. now right. Qed.

(** merge_config(DEFAULT_CONFIG, current) on a freshly parsed [current]:
    it returns normally, only appends entries to dicts, leaves
    DEFAULT_CONFIG's dicts as they were, and leaves every top-level key
    of the default bound in [current], its nested dicts (when [current]
    has a dict there) holding every nested key. *)
Lemma merge_default_spec_full h c :
  holds_default h -> fresh_current h c ->
  exists h', merge_config recursion_limit DEFAULT_CONFIG c h = Ret h' /\
    grows h h' /\
    (forall l, is_default_loc l -> h' !! l = h !! l) /\
    key_complete h' c "app" (map fst default_app) /\
    key_complete h' c "system" (map fst default_system) /\
    key_complete h' c "packages" [] /\
    (forall cur key dl, h !! c = Some cur ->
       (key = "app" /\ dl = default_app_loc \/
        key = "system" /\ dl = default_system_loc) ->
       assoc key cur = None ->
       exists cur', h' !! c = Some cur' /\ assoc key cur' = Some (PDict dl)).
Proof.
  intros (H1 & H2 & H3) (Hc & cur & Ec & Hfr).
  change recursion_limit with (S (S 998)). rewrite merge_config_unfold, H1.
  assert (Hs : dict_size h DEFAULT_CONFIG = length default_top)
    by (unfold dict_size; now rewrite H1).
  remember (length default_top) as n eqn:En. clear En.
  unfold default_top.
  (* "app" *)
  destruct (step_dict 998 n "app" default_app_loc default_app
              [("system", PDict default_system_loc);
               ("packages", PList [PStr "git"; PStr "curl"; PStr "htop"])]
              h c cur Hs H2 ltac:(repeat constructor) Ec Hc is_default_app
              (fun l Hl => Hfr "app" l Hl))
    as (h1 & E1 & G1 & D1 & A1 & K1 & cur1 & Ec1 & O1).
  rewrite E1.
  (* "system" *)
  assert (Hs1 : dict_size h1 DEFAULT_CONFIG = n)
    by (rewrite (default_locs_unchanged_size h h1 D1); exact Hs).
  assert (Hfr1 : forall l, assoc "system" cur1 = Some (PDict l) ->
                   ~ is_default_loc l /\ is_Some (h1 !! l)).
  { intros l Hl. rewrite O1 in Hl by (simpl; intuition discriminate).
    destruct (Hfr _ _ Hl) as [Hn [it Eit]]. split; [exact Hn|].
    destruct (G1 _ _ Eit) as [ext Eext]. rewrite Eext. eauto. }
  destruct (step_dict 998 n "system" default_system_loc default_system
              [("packages", PList [PStr "git"; PStr "curl"; PStr "htop"])]
              h1 c cur1 Hs1
              ltac:(rewrite D1 by exact is_default_system; exact H3)
              ltac:(repeat constructor) Ec1 Hc is_default_system Hfr1)
    as (h2 & E2 & G2 & D2 & A2 & K2 & cur2 & Ec2 & O2).
  rewrite E2.
  (* "packages" *)
  assert (Hs2 : dict_size h2 DEFAULT_CONFIG = n)
    by (rewrite (default_locs_unchanged_size h1 h2 D2); exact Hs1).
  destruct (step_atom (merge_config (S 998)) n "packages"
              (PList [PStr "git"; PStr "curl"; PStr "htop"]) [] h2 c cur2
              Hs2 I Ec2 Hc)
    as (h3 & E3 & G3 & D3 & K3 & cur3 & Ec3 & O3).
  rewrite E3.
  assert (Hs3 : dict_size h3 DEFAULT_CONFIG = n)
    by (rewrite (default_locs_unchanged_size h2 h3 D3); exact Hs2).
  cbn [merge_items]. rewrite Hs3, Nat.eqb_refl. cbn [negb].
  exists h3. split; [reflexivity|].
  split; [eauto using grows_trans|].
  split; [intros l Hl; rewrite D3, D2, D1 by exact Hl; reflexivity|].
  split; [eauto using key_complete_grows, grows_trans|].
  split; [eauto using key_complete_grows|].
  split; [exact K3|].
  intros cur0 key dl Ec0 Hk Hn. rewrite Ec in Ec0. injection Ec0 as <-.
  destruct Hk as [[-> ->]|[-> ->]].
  - destruct (A1 Hn) as (c1 & Ec1' & Ea1).
    destruct (G2 _ _ Ec1') as [x2 Ex2]. destruct (G3 _ _ Ex2) as [x3 Ex3].
    eexists. split; [exact Ex3|]. now do 2 apply assoc_app_l.
  - assert (Hn1 : assoc "system" cur1 = None).
    { rewrite O1; [exact Hn|discriminate|simpl; intuition discriminate]. }
    destruct (A2 Hn1) as (c2 & Ec2' & Ea2).
    destruct (G3 _ _ Ec2') as [x3 Ex3].
    eexists. split; [exact Ex3|]. now apply assoc_app_l.
Qed.


(** The part of [merge_default_spec_full] the claims use. *)
Lemma merge_default_spec h c :
  holds_default h -> fresh_current h c ->
  exists h', merge_config recursion_limit DEFAULT_CONFIG c h = Ret h' /\
    grows h h' /\
    (forall l, is_default_loc l -> h' !! l = h !! l) /\
    key_complete h' c "app" (map fst default_app) /\
    key_complete h' c "system" (map fst default_system) /\
    key_complete h' c "packages" [].
Proof.
  intros Hd Hc.
  destruct (merge_default_spec_full h c Hd Hc) as (h' & E & G & D & Ka & Ks & Kp & _).
  exists h'. auto 7.
Qed.

Lemma complete_flat h dl cl k0 v0 ditems f :
  h !! dl = Some ((k0, v0) :: ditems) ->
  Forall (fun kv => non_dict kv.2) ((k0, v0) :: ditems) ->
  has_keys h cl (map fst ((k0, v0) :: ditems)) ->
  complete (S f) h dl cl.
Proof.
  intros Hd Hf Hk.
  pose proof Hk as Hk0. apply Forall_cons in Hk0 as [(it & Eit & _) _].
  exists ((k0, v0) :: ditems), it. split; [exact Hd|]. split; [exact Eit|].
  apply Forall_forall. intros [k v] Hin.
  assert (Hv : non_dict v).
  { rewrite Forall_forall in Hf. exact (Hf (k, v) Hin). }
  assert (Hkin : k ∈ map fst ((k0, v0) :: ditems)).
  { apply list_elem_of_In. apply list_elem_of_In in Hin.
    exact (in_map fst _ (k, v) Hin). }
  unfold has_keys in Hk. rewrite Forall_forall in Hk. destruct (Hk k Hkin) as (it' & Eit' & [cv Hcv]).
  rewrite Eit in Eit'. injection Eit' as <-.
  exists cv. split; [exact Hcv|]. destruct v; try exact I. contradiction.
Qed.

(** The key facts of [merge_default_spec] are completeness. *)
Lemma complete_of_keys h c :
  holds_default h ->
  key_complete h c "app" (map fst default_app) ->
  key_complete h c "system" (map fst default_system) ->
  key_complete h c "packages" [] ->
  complete recursion_limit h DEFAULT_CONFIG c.
Proof.
  intros (H1 & H2 & H3) (cur & cva & Ec & Ea & Ka) (cur' & cvs & Ec' & Es & Ks)
    (cur'' & cvp & Ec'' & Ep & _).
  rewrite Ec in Ec', Ec''. injection Ec' as <-. injection Ec'' as <-.
  change recursion_limit with (S (S 998)).
  exists default_top, cur. split; [exact H1|]. split; [exact Ec|].
  repeat constructor.
  - exists cva. split; [exact Ea|]. destruct cva as [| | | | |cl]; auto.
    eapply complete_flat; [exact H2|repeat constructor|exact (Ka cl eq_refl)].
  - exists cvs. split; [exact Es|]. destruct cvs as [| | | | |cl]; auto.
    eapply complete_flat; [exact H3|repeat constructor|exact (Ks cl eq_refl)].
  - exists cvp. split; [exact Ep|]. destruct cvp; auto.
Qed.

(* ------------------------------------------------------------------ *)
(** ** Lemmas on [load_config]'s inputs *)

Lemma is_default_locb_spec l : is_default_locb l = false -> ~ is_default_loc l.
Proof.
  unfold is_default_locb, is_default_loc. intros E.
  repeat rewrite orb_false_iff in E. destruct E as [[E1 E2] E3].
  apply bool_decide_eq_false in E1, E2, E3. tauto.
Qed.

Lemma assoc_In k it v : assoc k it = Some v -> In (k, v) it.
Proof.
  induction it as [|[k' v'] it IH]; simpl; [discriminate|].
  destruct (String.eqb k k') eqn:E; [|auto].
  apply String.eqb_eq in E as ->. intros [= ->]. now left.
Qed.

Lemma fresh_currentb_sound h c :
  fresh_currentb h c = true -> fresh_current h c.
Proof.
  unfold fresh_currentb. intros E. apply andb_true_iff in E as [E1 E2].
  apply negb_true_iff in E1. split; [now apply is_default_locb_spec|].
  destruct (h !! c) as [cur|]; [|discriminate]. exists cur. split; [reflexivity|].
  intros k l Hk. apply assoc_In in Hk. rewrite forallb_forall in E2.
  specialize (E2 _ Hk). simpl in E2. apply andb_true_iff in E2 as [E3 E4].
  apply negb_true_iff in E3. split; [now apply is_default_locb_spec|].
  now apply bool_decide_eq_true in E4.
Qed.

Lemma holds_default_heap : holds_default default_heap.
Proof. repeat split. Qed.

Lemma holds_default_insert h l it :
  holds_default h -> ~ is_default_loc l -> holds_default (<[l := it]> h).
Proof.
  intros (H1 & H2 & H3) Hl.
  repeat split; rewrite lookup_insert_ne; auto;
    intros ->; apply Hl; unfold is_default_loc; auto.
Qed.

Lemma alloc_not_default h :
  holds_default h -> ~ is_default_loc (fresh (dom h)).
Proof.
  intros (H1 & H2 & H3) Hd. pose proof (is_fresh (dom h)) as Hf.
  apply Hf. apply elem_of_dom.
  destruct Hd as [->|[->| ->]]; eauto.
Qed.

Lemma key_complete_default h :
  holds_default h ->
  key_complete h DEFAULT_CONFIG "app" (map fst default_app) /\
  key_complete h DEFAULT_CONFIG "system" (map fst default_system) /\
  key_complete h DEFAULT_CONFIG "packages" [].
Proof.
  intros (H1 & H2 & H3).
  repeat split; eexists default_top, _; (split; [exact H1|]);
    (split; [reflexivity|]); intros cl [= <-];
    [apply has_keys_own; exact H2|apply has_keys_own; exact H3].
Qed.

Lemma walk_top h c cur key cv :
  h !! c = Some cur -> assoc key cur = Some cv ->
  walk h (PDict c) [key] = Found cv.
Proof. intros Ec Ea. simpl. now rewrite Ec, Ea. Qed.

Lemma walk_nested h c cur key cv k ks :
  h !! c = Some cur -> assoc key cur = Some cv ->
  (forall cl, cv = PDict cl -> has_keys h cl ks) -> In k ks ->
  walk h (PDict c) [key; k] <> Missing.
Proof.
  intros Ec Ea K Hk. simpl. rewrite Ec, Ea.
  destruct cv as [| | | | |cl]; try discriminate.
  specialize (K cl eq_refl). unfold has_keys in K. rewrite Forall_forall in K.
  apply list_elem_of_In in Hk. destruct (K k Hk) as (it & Eit & [v Hv]).
  rewrite Eit, Hv. discriminate.
Qed.

(** Every key path of the default schema is present or blocked. *)
Lemma walk_of_keys h c :
  key_complete h c "app" (map fst default_app) ->
  key_complete h c "system" (map fst default_system) ->
  key_complete h c "packages" [] ->
  forall p, p ∈ DEFAULT_PATHS -> walk h (PDict c) p <> Missing.
Proof.
  intros (cur & cva & Ec & Ea & Ka) (cur' & cvs & Ec' & Es & Ks)
    (cur'' & cvp & Ec'' & Ep & _).
  rewrite Ec in Ec', Ec''. injection Ec' as <-. injection Ec'' as <-.
  intros p Hp. rewrite default_paths_value in Hp.
  repeat (apply elem_of_cons in Hp as [->|Hp]);
    [..|apply elem_of_nil in Hp; contradiction].
  all: first
    [ erewrite walk_top by eassumption; discriminate
    | eapply walk_nested; [exact Ec|exact Ea|exact Ka|simpl; tauto]
    | eapply walk_nested; [exact Ec|exact Es|exact Ks|simpl; tauto] ].
Qed.


Lemma walk_top_complete h c key ks :
  key_complete h c key ks -> exists w, walk h (PDict c) [key] = Found w.
Proof.
  intros (cur & cv & Ec & Ea & _). exists cv. now apply (walk_top h c cur).
Qed.

Lemma walk_nested_found h c cur key cl k ks :
  h !! c = Some cur -> assoc key cur = Some (PDict cl) ->
  has_keys h cl ks -> In k ks ->
  exists w, walk h (PDict c) [key; k] = Found w.
Proof.
  intros Ec Ea K Hk. unfold has_keys in K. rewrite Forall_forall in K.
  apply list_elem_of_In in Hk. destruct (K k Hk) as (it & Eit & [v Hv]).
  exists v. simpl. now rewrite Ec, Ea, Eit, Hv.
Qed.

(** When [current] binds [app] and [system] to dicts, every key path of
    the default schema is found. *)
Lemma walk_of_keys_found h c cur la ls :
  h !! c = Some cur ->
  assoc "app" cur = Some (PDict la) -> assoc "system" cur = Some (PDict ls) ->
  key_complete h c "app" (map fst default_app) ->
  key_complete h c "system" (map fst default_system) ->
  key_complete h c "packages" [] ->
  forall p, p ∈ DEFAULT_PATHS -> exists w, walk h (PDict c) p = Found w.
Proof.
  intros Ec Ea Es Ka Ks Kp.
  pose proof Ka as (cur1 & cva & Ec1 & Ea1 & Ka1).
  pose proof Ks as (cur2 & cvs & Ec2 & Es2 & Ks2).
  rewrite Ec in Ec1, Ec2. injection Ec1 as <-. injection Ec2 as <-.
  rewrite Ea in Ea1. injection Ea1 as <-. rewrite Es in Es2. injection Es2 as <-.
  specialize (Ka1 la eq_refl). specialize (Ks2 ls eq_refl).
  intros p Hp. rewrite default_paths_value in Hp.
  repeat (apply elem_of_cons in Hp as [->|Hp]);
    [..|apply elem_of_nil in Hp; contradiction].
  all: first
    [ eapply walk_top_complete; eassumption
    | eapply walk_nested_found; [exact Ec|exact Ea|exact Ka1|simpl; tauto]
    | eapply walk_nested_found; [exact Ec|exact Es|exact Ks2|simpl; tauto] ].
Qed.

(** A nested default path [key.k] after the merge: it is found, or [key]
    holds a non-mapping value that [current] already held before it. *)
Lemma key_path_or_blocked h h' c cur cur' key ks k :
  h !! c = Some cur -> h' !! c = Some cur' ->
  (forall v0, assoc key cur = Some v0 -> assoc key cur' = Some v0) ->
  (assoc key cur = None -> exists dl, assoc key cur' = Some (PDict dl)) ->
  key_complete h' c key ks -> In k ks ->
  (exists w, walk h' (PDict c) [key; k] = Found w) \/
  (exists w, walk h (PDict c) [key] = Found w /\
     walk h' (PDict c) [key] = Found w /\ non_dict w).
Proof.
  intros Ec Ec' Hkeep Hnew (cur'' & cv & Ec'' & Ecv & K) Hk.
  rewrite Ec' in Ec''. injection Ec'' as <-.
  destruct (assoc key cur) as [v0|] eqn:E0.
  - assert (cv = v0) by (specialize (Hkeep v0 eq_refl); congruence). subst cv.
    destruct v0 as [s|b|z| |xs|cl].
    6: left; exact (walk_nested_found h' c cur' key cl k ks Ec' Ecv (K cl eq_refl) Hk).
    all: right; eexists; split; [eapply walk_top; [exact Ec|exact E0]|];
      split; [eapply walk_top; [exact Ec'|exact Ecv]|]; exact I.
  - destruct (Hnew eq_refl) as [dl Edl]. rewrite Ecv in Edl. injection Edl as ->.
    left. exact (walk_nested_found h' c cur' key dl k ks Ec' Ecv (K dl eq_refl) Hk).
Qed.

Lemma fresh_current_alloc h :
  holds_default h ->
  fresh_current (<[fresh (dom h) := []]> h) (fresh (dom h)).
Proof.
  intros Hd. split; [now apply alloc_not_default|].
  exists []. split; [apply lookup_insert_eq|]. intros k l Hk. discriminate.
Qed.

(** [load_config] on the inputs it gets: it returns normally, and the
    configuration it stores is a dict with the default's keys (nested
    keys where it holds a dict). *)
Lemma load_config_spec h f :
  holds_default h -> loadable h f ->
  exists tr h' ret c',
    load_config f h = (tr, Ret (h', ret, ConfigFile (PDict c'))) /\
    key_complete h' c' "app" (map fst default_app) /\
    key_complete h' c' "system" (map fst default_system) /\
    key_complete h' c' "packages" [].
Proof.
  intros Hd Hf. pose proof Hd as (H1 & H2 & H3).
  assert (Hfalsy :
    exists tr h' ret c',
      (h2 ← lift (merge_config recursion_limit DEFAULT_CONFIG (fresh (dom h))
                    (<[fresh (dom h) := []]> h));
       mret (h2, PDict (fresh (dom h)), ConfigFile (PDict (fresh (dom h)))))
      = (tr, Ret (h', ret, ConfigFile (PDict c'))) /\
      key_complete h' c' "app" (map fst default_app) /\
      key_complete h' c' "system" (map fst default_system) /\
      key_complete h' c' "packages" []).
  { destruct (merge_default_spec (<[fresh (dom h) := []]> h) (fresh (dom h))
                (holds_default_insert _ _ _ Hd (alloc_not_default h Hd))
                (fresh_current_alloc h Hd))
      as (h2 & E & _ & _ & Ka & Ks & Kp).
    exists [], h2, (PDict (fresh (dom h))), (fresh (dom h)).
    unfold lift. rewrite E. simpl. auto. }
  destruct f as [|v]; cbn -[merge_config].
  - rewrite H1. simpl.
    set (l := fresh (dom h)).
    assert (Hd' : holds_default (<[l := default_top]> h))
      by (apply holds_default_insert; [exact Hd|now apply alloc_not_default]).
    destruct (key_complete_default _ Hd') as (Ka & Ks & Kp).
    eexists _, _, _, DEFAULT_CONFIG. split; [reflexivity|]. auto.
  - destruct Hf as [Hfalse|(c & -> & Hc)].
    + rewrite Hfalse. cbn -[merge_config]. destruct Hfalsy as (tr & h' & ret & c' & E & K).
      exists tr, h', ret, c'. split; [|exact K].
      exact E.
    + destruct (truthy h (PDict c)) eqn:Et.
      * destruct (merge_default_spec h c Hd Hc)
          as (h2 & E & _ & _ & Ka & Ks & Kp).
        exists [], h2, (PDict c), c. unfold lift. rewrite E. auto.
      * cbn -[merge_config].
        destruct Hfalsy as (tr & h' & ret & c' & E & K).
        exists tr, h', ret, c'. split; [exact E|exact K].
Qed.

(* ================================================================== *)
(** * The claims *)

(** ** Config merge *)

(** C1 (counterexample): a key path of the default schema is not in the
    stored configuration when the loaded file holds a non-mapping value
    above it: with config.yaml holding [app: "custom"], [app.name] is
    absent after load_config (the walk stops at the string). *)
Lemma load_config_scalar_blocks_default_path :
  In ["app"; "name"] DEFAULT_PATHS /\
  match load_config (ConfigFile (PDict 4%positive)) user_heap with
  | (_, Ret (h', _, ConfigFile v')) => walk h' v' ["app"; "name"] = Blocked
  | _ => False
  end.
Proof. split; [simpl; tauto|]. vm_compute. reflexivity. Qed.

(** C1 (amended): load_config, on no file, a file parsed to a falsy
    value, or one parsed to a dict of its own, returns normally; every key
    path of the default schema is found in the configuration it stores,
    or a proper prefix of the path holds a non-mapping value that the
    loaded configuration already held there (and still holds); with no
    file or a falsy file every key path is found. *)
Theorem load_config_stores_default_paths h f :
  holds_default h -> loadable h f ->
  exists tr h' ret v',
    load_config f h = (tr, Ret (h', ret, ConfigFile v')) /\
    (forall p, p ∈ DEFAULT_PATHS ->
       (exists w, walk h' v' p = Found w) \/
       (exists c q r w, f = ConfigFile (PDict c) /\ p = app q r /\ r <> [] /\
          walk h (PDict c) q = Found w /\ walk h' v' q = Found w /\
          non_dict w)) /\
    ((f = NoConfigFile \/ exists v, f = ConfigFile v /\ truthy h v = false) ->
       forall p, p ∈ DEFAULT_PATHS -> exists w, walk h' v' p = Found w).
Proof.
  intros Hd Hf. pose proof Hd as (H1 & H2 & H3).
  assert (Hfalsy :
    exists tr h' ret v',
      (h2 ← lift (merge_config recursion_limit DEFAULT_CONFIG (fresh (dom h))
                    (<[fresh (dom h) := []]> h));
       mret (h2, PDict (fresh (dom h)), ConfigFile (PDict (fresh (dom h)))))
      = (tr, Ret (h', ret, ConfigFile v')) /\
      forall p, p ∈ DEFAULT_PATHS -> exists w, walk h' v' p = Found w).
  { set (l := fresh (dom h)).
    destruct (merge_default_spec_full (<[l := []]> h) l
                (holds_default_insert _ _ _ Hd (alloc_not_default h Hd))
                (fresh_current_alloc h Hd))
      as (h2 & E & _ & _ & Ka & Ks & Kp & A).
    exists [], h2, (PDict l), (PDict l).
    unfold lift. rewrite E. split; [reflexivity|].
    destruct (A [] "app" default_app_loc (lookup_insert_eq _ _ _)
                (or_introl (conj eq_refl eq_refl)) eq_refl) as (cur1 & Ec1 & Ea).
    destruct (A [] "system" default_system_loc (lookup_insert_eq _ _ _)
                (or_intror (conj eq_refl eq_refl)) eq_refl) as (cur2 & Ec2 & Es).
    rewrite Ec1 in Ec2. injection Ec2 as <-.
    exact (walk_of_keys_found h2 l cur1 _ _ Ec1 Ea Es Ka Ks Kp). }
  assert (Hall : forall (h' : heap) (v' : pyval),
    (forall p, p ∈ DEFAULT_PATHS -> exists w, walk h' v' p = Found w) ->
    (forall p, p ∈ DEFAULT_PATHS ->
       (exists w, walk h' v' p = Found w) \/
       (exists c q r w, f = ConfigFile (PDict c) /\ p = app q r /\ r <> [] /\
          walk h (PDict c) q = Found w /\ walk h' v' q = Found w /\
          non_dict w)) /\
    ((f = NoConfigFile \/ exists v, f = ConfigFile v /\ truthy h v = false) ->
       forall p, p ∈ DEFAULT_PATHS -> exists w, walk h' v' p = Found w)).
  { intros h' v' W. split; [intros p Hp; left|intros _]; auto. }
  destruct f as [|v]; cbn -[merge_config].
  - rewrite H1. simpl.
    set (l := fresh (dom h)).
    assert (Hd' : holds_default (<[l := default_top]> h))
      by (apply holds_default_insert; [exact Hd|now apply alloc_not_default]).
    destruct (key_complete_default _ Hd') as (Ka & Ks & Kp).
    eexists _, _, _, (PDict DEFAULT_CONFIG). split; [reflexivity|].
    apply Hall.
    destruct Hd' as (E1 & _ & _).
    exact (walk_of_keys_found _ _ _ _ _ E1 eq_refl eq_refl Ka Ks Kp).
  - destruct Hf as [Hfalse|(c & -> & Hc)].
    + rewrite Hfalse. cbn -[merge_config].
      destruct Hfalsy as (tr & h' & ret & v' & E & W).
      exists tr, h', ret, v'. split; [exact E|].
      exact (Hall h' v' W).
    + destruct (truthy h (PDict c)) eqn:Et.
      * destruct (merge_default_spec_full h c Hd Hc)
          as (h2 & E & G & _ & Ka & Ks & Kp & A).
        destruct Hc as (_ & cur & Ec & _).
        destruct (G _ _ Ec) as [ext Ec2].
        exists [], h2, (PDict c), (PDict c). unfold lift. rewrite E.
        split; [reflexivity|].
        assert (Hkeep : forall key v0, assoc key cur = Some v0 ->
                  assoc key (app cur ext) = Some v0)
          by (intros key v0; apply assoc_app_l).
        assert (Hnew : forall key dl,
                  (key = "app" /\ dl = default_app_loc \/
                   key = "system" /\ dl = default_system_loc) ->
                  assoc key cur = None ->
                  exists dl', assoc key (app cur ext) = Some (PDict dl')).
        { intros key dl Hk Hn. destruct (A cur key dl Ec Hk Hn) as (cur' & E' & Ea).
          rewrite Ec2 in E'. injection E' as <-. eauto. }
        assert (Hpa : forall k, In k (map fst default_app) ->
          (exists w, walk h2 (PDict c) ["app"; k] = Found w) \/
          (exists w, walk h (PDict c) ["app"] = Found w /\
             walk h2 (PDict c) ["app"] = Found w /\ non_dict w)).
        { intros k Hk. apply (key_path_or_blocked h h2 c cur (app cur ext) "app"
            (map fst default_app) k Ec Ec2 (Hkeep "app")
            (Hnew "app" default_app_loc (or_introl (conj eq_refl eq_refl))) Ka Hk). }
        assert (Hps : forall k, In k (map fst default_system) ->
          (exists w, walk h2 (PDict c) ["system"; k] = Found w) \/
          (exists w, walk h (PDict c) ["system"] = Found w /\
             walk h2 (PDict c) ["system"] = Found w /\ non_dict w)).
        { intros k Hk. apply (key_path_or_blocked h h2 c cur (app cur ext) "system"
            (map fst default_system) k Ec Ec2 (Hkeep "system")
            (Hnew "system" default_system_loc (or_intror (conj eq_refl eq_refl))) Ks Hk). }
        split.
        -- intros p Hp. rewrite default_paths_value in Hp.
           repeat (apply elem_of_cons in Hp as [->|Hp]);
             [..|apply elem_of_nil in Hp; contradiction].
           all: first
             [ left; eapply walk_top_complete; eassumption
             | match goal with
               | |- context [["app"; ?k]] =>
                   destruct (Hpa k ltac:(simpl; tauto)) as [Hw|(w & W1 & W2 & Hn)]
               | |- context [["system"; ?k]] =>
                   destruct (Hps k ltac:(simpl; tauto)) as [Hw|(w & W1 & W2 & Hn)]
               end;
               [ left; exact Hw
               | right; eexists c, [_], _, w;
                 split; [reflexivity|]; split; [reflexivity|];
                 split; [discriminate|]; auto ] ].
        -- intros [Hno|(v & Hv & Hf)]; [discriminate|].
           injection Hv as <-. congruence.
      * cbn -[merge_config].
        destruct Hfalsy as (tr & h' & ret & v' & E & W).
        exists tr, h', ret, v'. split; [exact E|].
        exact (Hall h' v' W).
Qed.

Lemma load_config_stores_default_paths_witness :
  exists tr h' ret v',
    load_config (ConfigFile (PDict 4%positive)) user_heap =
      (tr, Ret (h', ret, ConfigFile v')) /\
    (forall p, p ∈ DEFAULT_PATHS ->
       (exists w, walk h' v' p = Found w) \/
       (exists c q r w, ConfigFile (PDict 4%positive) = ConfigFile (PDict c) /\
          p = app q r /\ r <> [] /\
          walk user_heap (PDict c) q = Found w /\ walk h' v' q = Found w /\
          non_dict w)) /\
    ((ConfigFile (PDict 4%positive) = NoConfigFile \/
      exists v, ConfigFile (PDict 4%positive) = ConfigFile v /\
        truthy user_heap v = false) ->
       forall p, p ∈ DEFAULT_PATHS -> exists w, walk h' v' p = Found w).
Proof.
  apply load_config_stores_default_paths.
  - repeat split.
  - right. exists 4%positive. split; [reflexivity|].
    apply fresh_currentb_sound. vm_compute. reflexivity.
Defined.

(** C2: merge_config(DEFAULT_CONFIG, current) returns normally and every
    key [current] binds keeps exactly its value (a non-mapping value in
    particular): defaults never overwrite a user setting. *)
Theorem merge_config_keeps_current_values h c cur k v :
  holds_default h -> fresh_current h c ->
  h !! c = Some cur -> assoc k cur = Some v ->
  exists h' cur',
    merge_config recursion_limit DEFAULT_CONFIG c h = Ret h' /\
    h' !! c = Some cur' /\ assoc k cur' = Some v.
Proof.
  intros Hd Hc Ec Ek.
  destruct (merge_default_spec h c Hd Hc) as (h' & E & G & _).
  destruct (G _ _ Ec) as [ext E'].
  exists h', (app cur ext). split; [exact E|]. split; [exact E'|].
  now apply assoc_app_l.
Qed.

Lemma merge_config_keeps_current_values_witness :
  exists h' cur',
    merge_config recursion_limit DEFAULT_CONFIG 4%positive user_heap = Ret h' /\
    h' !! 4%positive = Some cur' /\ assoc "app" cur' = Some (PStr "custom").
Proof.
  apply (merge_config_keeps_current_values user_heap 4%positive
           [("app", PStr "custom"); ("system", PDict 5%positive)]).
  - repeat split.
  - apply fresh_currentb_sound. vm_compute. reflexivity.
  - reflexivity.
  - reflexivity.
Defined.

(** C3: merging DEFAULT_CONFIG into a configuration a second time
    changes nothing: the second merge returns the heap of the first. *)
Theorem merge_config_idempotent h c :
  holds_default h -> fresh_current h c ->
  exists h', merge_config recursion_limit DEFAULT_CONFIG c h = Ret h' /\
    merge_config recursion_limit DEFAULT_CONFIG c h' = Ret h'.
Proof.
  intros Hd Hc.
  destruct (merge_default_spec h c Hd Hc) as (h' & E & _ & D & Ka & Ks & Kp).
  exists h'. split; [exact E|]. apply complete_noop.
  apply complete_of_keys; auto.
  destruct Hd as (H1 & H2 & H3).
  repeat split; rewrite D; auto; unfold is_default_loc; auto.
Qed.

Lemma merge_config_idempotent_witness :
  exists h', merge_config recursion_limit DEFAULT_CONFIG 4%positive user_heap = Ret h' /\
    merge_config recursion_limit DEFAULT_CONFIG 4%positive h' = Ret h'.
Proof.
  apply merge_config_idempotent.
  - repeat split.
  - apply fresh_currentb_sound. vm_compute. reflexivity.
Defined.

(** C9 (counterexample): when [current] shares a dict with [default],
    merge_config mutates [default]: with [default = {a: {x: 1}, b: B}] and
    [current = {a: B}], the dict [default["b"]] goes from [{}] to
    [{x: 1}]. *)
Lemma merge_config_aliasing_mutates_default :
  aliased_heap !! 3%positive = Some [] /\
  match merge_config recursion_limit 1%positive 4%positive aliased_heap with
  | Ret h' => h' !! 3%positive = Some [("x", PInt 1)]
  | _ => False
  end.
Proof. split; vm_compute; reflexivity. Qed.

(** C9 (amended): merge_config(DEFAULT_CONFIG, current), for a [current]
    whose dicts are not DEFAULT_CONFIG's (as load_config's parsed
    [current]), returns normally and leaves DEFAULT_CONFIG and its nested
    dicts exactly as they were. *)
Theorem merge_config_leaves_default_unchanged h c :
  holds_default h -> fresh_current h c ->
  exists h', merge_config recursion_limit DEFAULT_CONFIG c h = Ret h' /\
    forall l, is_default_loc l -> h' !! l = h !! l.
Proof.
  intros Hd Hc.
  destruct (merge_default_spec h c Hd Hc) as (h' & E & _ & D & _).
  exists h'. auto.
Qed.

Lemma merge_config_leaves_default_unchanged_witness :
  exists h', merge_config recursion_limit DEFAULT_CONFIG 4%positive user_heap = Ret h' /\
    forall l, is_default_loc l -> h' !! l = user_heap !! l.
Proof.
  apply merge_config_leaves_default_unchanged.
  - repeat split.
  - apply fresh_currentb_sound. vm_compute. reflexivity.
Defined.

(** ** Orchestration *)

Lemma bind_ret_nil {A B} (a : A) (k : A -> PyM B) :
  (([], Ret a) : PyM A) ≫= k = k a.
Proof. unfold mbind, PyM_bind. destruct (k a). reflexivity. Qed.

Lemma get_system_setting_absent h l it key dflt :
  h !! l = Some it -> setting_absent h it key ->
  get_system_setting h (PDict l) key dflt = ([], Ret dflt).
Proof.
  intros El [Hs|(s & sit & Hs & Es & Hk)];
    unfold get_system_setting, dict_get_opt; simpl; rewrite El; simpl;
    rewrite Hs; [reflexivity|].
  unfold dict_get, dict_get_opt. simpl. rewrite Es. simpl. now rewrite Hk.
Qed.

(** C4: on an OS that is neither Linux nor Darwin, main prints the
    banner and "Unsupported OS", then exits with code 1; no later step
    runs (no other line, no process invocation). *)
Theorem main_unsupported_os_exits h config e :
  platform_system e <> "Linux" -> platform_system e <> "Darwin" ->
  main h config e = (app banner [Print "Unsupported OS"], SysExit 1).
Proof.
  intros HL HD. apply String.eqb_neq in HL, HD.
  unfold main, check_os. cbn zeta. rewrite HL, HD. reflexivity.
Qed.

Lemma main_unsupported_os_exits_witness :
  main empty_cfg_heap (PDict 10%positive) windows_host =
    (app banner [Print "Unsupported OS"], SysExit 1).
Proof. apply main_unsupported_os_exits; vm_compute; discriminate. Defined.

(** C5: for each of the three table-driven steps, once it reaches its
    dispatch (its flag is truthy; for installs, [packages] too) with a
    package manager absent from its table, it prints one warning line and
    returns normally: no process is run, no package is attempted, nothing
    is raised, and main goes on with the next step. *)
Theorem unsupported_manager_warns h config e :
  (forall flag,
     get_system_setting h config "auto_update" (PBool false) = ([], Ret flag) ->
     truthy h flag = true ->
     table_get (detect_package_manager e) update_commands = None ->
     auto_update_system h config e =
       ([Print ("[WARN] Auto update not supported for: "
                ++ detect_package_manager e)], Ret tt)) /\
  (forall flag,
     get_system_setting h config "install_docker" (PBool false) = ([], Ret flag) ->
     truthy h flag = true ->
     table_get (detect_package_manager e) docker_packages = None ->
     install_docker h config e =
       ([Print ("[WARN] Docker install not supported for: "
                ++ detect_package_manager e)], Ret tt)) /\
  (forall flag packages,
     get_system_setting h config "auto_install" (PBool false) = ([], Ret flag) ->
     truthy h flag = true ->
     dict_get h config "packages" (PList []) = ([], Ret packages) ->
     truthy h packages = true ->
     table_get (detect_package_manager e) INSTALL_COMMANDS = None ->
     auto_install_packages h config e =
       ([Print ("[WARN] Package manager not supported: "
                ++ detect_package_manager e)], Ret tt)).
Proof.
  split; [|split].
  - intros flag Hf Ht Hn. unfold auto_update_system.
    rewrite Hf, bind_ret_nil, Ht. cbv zeta. now rewrite Hn.
  - intros flag Hf Ht Hn. unfold install_docker.
    rewrite Hf, bind_ret_nil, Ht. cbv zeta. now rewrite Hn.
  - intros flag packages Hf Ht Hp Hpt Hn. unfold auto_install_packages.
    rewrite Hf, bind_ret_nil, Ht. cbn [negb].
    rewrite Hp, bind_ret_nil, Hpt. cbv zeta. now rewrite Hn.
Qed.

Lemma unsupported_manager_warns_witness :
  auto_update_system cfg_heap (PDict 10%positive) bare_host =
    ([Print "[WARN] Auto update not supported for: unknown-linux"], Ret tt) /\
  install_docker cfg_heap (PDict 10%positive) bare_host =
    ([Print "[WARN] Docker install not supported for: unknown-linux"], Ret tt) /\
  auto_install_packages cfg_heap (PDict 10%positive) bare_host =
    ([Print "[WARN] Package manager not supported: unknown-linux"], Ret tt).
Proof.
  destruct (unsupported_manager_warns cfg_heap (PDict 10%positive) bare_host)
    as (U & D & I).
  split; [|split].
  - apply (U (PBool true)); vm_compute; reflexivity.
  - apply (D (PBool true)); vm_compute; reflexivity.
  - apply (I (PBool true) (PList [PStr "git"; PStr "curl"]));
      vm_compute; reflexivity.
Defined.

Lemma first_present_first present pre cmd name post :
  Forall (fun cn => present cn.1 = false) pre -> present cmd = true ->
  first_present present (app pre ((cmd, name) :: post)) = Some name.
Proof.
  intros Hpre Hc. induction pre as [|[c n] pre IH]; simpl.
  - now rewrite Hc.
  - apply Forall_cons in Hpre as [Hcn Hpre]. simpl in Hcn.
    rewrite Hcn. now apply IH.
Qed.

Lemma first_present_none present ms :
  Forall (fun cn => present cn.1 = false) ms -> first_present present ms = None.
Proof.
  induction ms as [|[c n] ms IH]; simpl; intros H; [reflexivity|].
  apply Forall_cons in H as [Hc H]. simpl in Hc. rewrite Hc. now apply IH.
Qed.

(** C6: on Linux the prober tests pacman, apt, dnf, yum, zypper, apk,
    emerge, xbps-install, nix-env in that order and returns the identity
    of the first one on the path ("xbps" for xbps-install, "nix" for
    nix-env), or "unknown-linux" when none is; so pacman wins over apt. *)
Theorem detect_package_manager_priority e :
  platform_system e = "Linux" ->
  map fst managers =
    ["pacman"; "apt"; "dnf"; "yum"; "zypper"; "apk"; "emerge";
     "xbps-install"; "nix-env"] /\
  (forall pre cmd name post,
     managers = app pre ((cmd, name) :: post) ->
     Forall (fun cn => which e cn.1 = false) pre -> which e cmd = true ->
     detect_package_manager e = name) /\
  (Forall (fun cn => which e cn.1 = false) managers ->
     detect_package_manager e = "unknown-linux") /\
  (which e "pacman" = true -> which e "apt" = true ->
     detect_package_manager e = "pacman").
Proof.
  intros HL. split; [reflexivity|].
  assert (Hd : detect_package_manager e =
                 match first_present (which e) managers with
                 | Some name => name
                 | None => "unknown-linux"
                 end)
    by (unfold detect_package_manager; cbv zeta; now rewrite HL).
  rewrite Hd. split; [|split].
  - intros pre cmd name post Em Hpre Hc. rewrite Em.
    now rewrite (first_present_first _ pre cmd name post Hpre Hc).
  - intros Hn. now rewrite (first_present_none _ managers Hn).
  - intros Hp _. unfold managers. simpl. now rewrite Hp.
Qed.

Lemma detect_package_manager_priority_witness :
  detect_package_manager arch_host = "pacman".
Proof.
  destruct (detect_package_manager_priority arch_host eq_refl)
    as (_ & _ & _ & P).
  apply P; reflexivity.
Defined.

Lemma install_each_trace e mk ps :
  install_each e mk (map PStr ps) =
    (flat_map (fun p =>
       if which e p then [Print ("[OK] " ++ p ++ " already installed")]
       else [Print ("[INSTALL] " ++ String.concat " " (mk p)); Run (mk p)]) ps,
     Ret tt).
Proof.
  induction ps as [|p ps IH]; [reflexivity|].
  cbn [map install_each flat_map]. unfold is_installed.
  destruct (which e p); unfold mbind, PyM_bind, print, run; simpl;
    rewrite IH; reflexivity.
Qed.

(** C7: in the install step, a configured package already on the path
    gets one "[OK] <pkg> already installed" line and no process
    invocation; every package is handled, in configured order, whatever
    the packages before it were. *)
Theorem install_skips_present_packages h config e flag ps mk :
  get_system_setting h config "auto_install" (PBool false) = ([], Ret flag) ->
  truthy h flag = true ->
  dict_get h config "packages" (PList []) = ([], Ret (PList (map PStr ps))) ->
  ps <> [] ->
  table_get (detect_package_manager e) INSTALL_COMMANDS = Some mk ->
  auto_install_packages h config e =
    (Print ("[INFO] Installing packages using: " ++ detect_package_manager e)
     :: flat_map (fun p =>
          if which e p then [Print ("[OK] " ++ p ++ " already installed")]
          else [Print ("[INSTALL] " ++ String.concat " " (mk p)); Run (mk p)])
          ps,
     Ret tt).
Proof.
  intros Hf Ht Hp Hne Hm. unfold auto_install_packages.
  rewrite Hf, bind_ret_nil, Ht. cbn [negb].
  rewrite Hp, bind_ret_nil.
  assert (Hpt : truthy h (PList (map PStr ps)) = true)
    by (destruct ps; [contradiction|reflexivity]).
  rewrite Hpt. cbv zeta. rewrite Hm.
  unfold py_iter. unfold mbind at 2. unfold mret, PyM_ret, PyM_bind at 2.
  rewrite install_each_trace. reflexivity.
Qed.

Lemma install_skips_present_packages_witness :
  auto_install_packages cfg_heap (PDict 10%positive) arch_host =
    (Print ("[INFO] Installing packages using: "
            ++ detect_package_manager arch_host)
     :: flat_map (fun p =>
          if which arch_host p then [Print ("[OK] " ++ p ++ " already installed")]
          else [Print ("[INSTALL] " ++ String.concat " "
                         ["sudo"; "pacman"; "-S"; "--noconfirm"; p]);
                Run ["sudo"; "pacman"; "-S"; "--noconfirm"; p]])
          ["git"; "curl"],
     Ret tt).
Proof.
  apply (install_skips_present_packages cfg_heap (PDict 10%positive) arch_host
           (PBool true) ["git"; "curl"]
           (fun p => ["sudo"; "pacman"; "-S"; "--noconfirm"; p]));
    first [vm_compute; reflexivity | discriminate].
Defined.

(** C8 (code_bug): on Linux, when /etc/os-release exists but has no
    PRETTY_NAME line, get_linux_distro falls off its loop and returns
    None, so check_os prints "OS: None" instead of "Unknown Linux". *)
Theorem get_linux_distro_without_pretty_name e lines :
  platform_system e = "Linux" -> os_release e = Some lines ->
  Forall (fun line => String.prefix "PRETTY_NAME" line = false) lines ->
  get_linux_distro e = ([], Ret None) /\
  check_os e = ([Print "OS: None"], Ret tt).
Proof.
  intros HL Ho Hn.
  assert (G : get_linux_distro e = ([], Ret None)).
  { unfold get_linux_distro. rewrite Ho. clear Ho HL.
    induction lines as [|line lines IH]; [reflexivity|].
    apply Forall_cons in Hn as [H1 Hn]. simpl. rewrite H1. now apply IH. }
  split; [exact G|].
  unfold check_os. cbv zeta. rewrite HL. simpl. rewrite G. reflexivity.
Qed.

Lemma get_linux_distro_without_pretty_name_witness :
  get_linux_distro host_without_pretty_name = ([], Ret None) /\
  check_os host_without_pretty_name = ([Print "OS: None"], Ret tt).
Proof.
  apply (get_linux_distro_without_pretty_name host_without_pretty_name
           ["NAME=Arch Linux" ++ nl; "ID=arch" ++ nl]);
    [reflexivity|reflexivity|vm_compute; repeat constructor].
Defined.

(** C10: when the ["system"] mapping, or the flag of a step in it, is
    absent, auto_update_system, install_docker and auto_install_packages
    each print their "disabled" line and return normally, with no process
    invocation. *)
Theorem missing_flags_disable_steps h l it e :
  h !! l = Some it ->
  (setting_absent h it "auto_update" ->
     auto_update_system h (PDict l) e =
       ([Print "[INFO] Auto update disabled"], Ret tt)) /\
  (setting_absent h it "install_docker" ->
     install_docker h (PDict l) e =
       ([Print "[INFO] Docker install disabled"], Ret tt)) /\
  (setting_absent h it "auto_install" ->
     auto_install_packages h (PDict l) e =
       ([Print "[INFO] Auto install disabled"], Ret tt)).
Proof.
  intros El. split; [|split]; intros Ha;
    [unfold auto_update_system|unfold install_docker|unfold auto_install_packages];
    rewrite (get_system_setting_absent h l it _ _ El Ha), bind_ret_nil;
    reflexivity.
Qed.

Lemma missing_flags_disable_steps_witness :
  auto_update_system empty_cfg_heap (PDict 10%positive) arch_host =
    ([Print "[INFO] Auto update disabled"], Ret tt) /\
  install_docker empty_cfg_heap (PDict 10%positive) arch_host =
    ([Print "[INFO] Docker install disabled"], Ret tt) /\
  auto_install_packages empty_cfg_heap (PDict 10%positive) arch_host =
    ([Print "[INFO] Auto install disabled"], Ret tt).
Proof.
  destruct (missing_flags_disable_steps empty_cfg_heap 10%positive []
              arch_host eq_refl) as (U & D & I).
  split; [|split]; [apply U|apply D|apply I]; left; reflexivity.
Defined.

(* ================================================================== *)
(** * Further properties of the code *)

(** ** Loading an absent or empty config file *)

Lemma fresh_dom_none (h : heap) : h !! fresh (dom h) = None.
Proof. apply not_elem_of_dom, is_fresh. Qed.

Lemma load_no_file h :
  holds_default h ->
  load_config NoConfigFile h =
    ([Print "[CONFIG] Creating config.yaml"],
     Ret (<[fresh (dom h) := default_top]> h, PDict (fresh (dom h)),
          ConfigFile (PDict DEFAULT_CONFIG))).
Proof. intros (H1 & _ & _). unfold load_config. rewrite H1. reflexivity. Qed.

(** The loop when none of [default]'s keys is in [current]: they are
    all appended, in order. *)
Lemma merge_items_absent m d x n items : forall h cur,
  dict_size h d = n -> x <> d -> h !! x = Some cur ->
  NoDup (map fst items) -> Forall (fun kv => assoc kv.1 cur = None) items ->
  merge_items m d x n items h = Ret (<[x := app cur items]> h).
Proof.
  induction items as [|[k v] items IH]; intros h cur Hs Hx Ec Hn Ha;
    cbn [merge_items]; rewrite Hs, Nat.eqb_refl; cbn [negb].
  - rewrite app_nil_r. now rewrite insert_id.
  - rewrite Ec. apply Forall_cons in Ha as [Hk Ha]. simpl in Hk. rewrite Hk.
    cbn [map] in Hn. apply NoDup_cons in Hn as [Hnk Hn].
    rewrite (IH _ (app cur [(k, v)])).
    + rewrite insert_insert_eq, <- app_assoc. reflexivity.
    + unfold dict_size. rewrite lookup_insert_ne by congruence. exact Hs.
    + exact Hx.
    + apply lookup_insert_eq.
    + exact Hn.
    + apply Forall_forall. intros [k' v'] Hin. simpl.
      rewrite assoc_snoc_ne.
      * rewrite Forall_forall in Ha. exact (Ha _ Hin).
      * intros ->. apply Hnk. apply list_elem_of_In, in_map_iff.
        exists (k, v'). split; [reflexivity|]. now apply list_elem_of_In.
Qed.

Lemma merge_into_fresh_empty h l :
  holds_default h -> h !! l = Some [] -> ~ is_default_loc l ->
  merge_config recursion_limit DEFAULT_CONFIG l h = Ret (<[l := default_top]> h).
Proof.
  intros (H1 & H2 & H3) El Hl.
  change recursion_limit with (S 999). rewrite merge_config_unfold, H1.
  apply merge_items_absent with (cur := []).
  - unfold dict_size. now rewrite H1.
  - intros ->. apply Hl. now left.
  - exact El.
  - vm_compute. repeat constructor; set_solver.
  - repeat constructor.
Qed.

(** ** Running the steps *)

Lemma bind_ret {A B} t (a : A) (k : A -> PyM B) :
  (t, Ret a) ≫= k = let '(t', o) := k a in (app t t', o).
Proof. reflexivity. Qed.

Lemma bind_mret {A B} (a : A) (k : A -> PyM B) : mret a ≫= k = k a.
Proof. unfold mbind, PyM_bind, mret, PyM_ret. now destruct (k a). Qed.

Lemma load_falsy h v :
  holds_default h -> truthy h v = false ->
  load_config (ConfigFile v) h =
    ([], Ret (<[fresh (dom h) := default_top]> h, PDict (fresh (dom h)),
              ConfigFile (PDict (fresh (dom h))))).
Proof.
  intros Hd Ht. unfold load_config. rewrite Ht. unfold alloc.
  cbn -[merge_config].
  rewrite (merge_into_fresh_empty (<[fresh (dom h) := []]> h) (fresh (dom h))).
  - rewrite insert_insert_eq. reflexivity.
  - apply holds_default_insert; [exact Hd|now apply alloc_not_default].
  - apply lookup_insert_eq.
  - now apply alloc_not_default.
Qed.

Lemma get_system_setting_found h l it s sit key v dflt :
  h !! l = Some it -> assoc "system" it = Some (PDict s) ->
  h !! s = Some sit -> assoc key sit = Some v ->
  get_system_setting h (PDict l) key dflt = ([], Ret v).
Proof.
  intros El Es Esit Ek. unfold get_system_setting, dict_get, dict_get_opt.
  rewrite El. cbn [mbind PyM_bind mret PyM_ret]. rewrite Es, Esit, Ek.
  reflexivity.
Qed.

Lemma default_cfg_setting h l key dflt :
  h !! l = Some default_top -> h !! default_system_loc = Some default_system ->
  get_system_setting h (PDict l) key dflt =
    ([], Ret (match assoc key default_system with Some v => v | None => dflt end)).
Proof.
  intros El Es. unfold get_system_setting, dict_get, dict_get_opt.
  rewrite El. cbn [mbind PyM_bind mret PyM_ret]. simpl assoc.
  cbv beta iota. rewrite Es. reflexivity.
Qed.

Lemma default_cfg_packages h l dflt :
  h !! l = Some default_top ->
  dict_get h (PDict l) "packages" dflt =
    ([], Ret (PList [PStr "git"; PStr "curl"; PStr "htop"])).
Proof. intros El. unfold dict_get, dict_get_opt. rewrite El. reflexivity. Qed.

Lemma truthy_non_dict h h' v : non_dict v -> truthy h v = truthy h' v.
Proof. destruct v; simpl; tauto. Qed.

Lemma check_os_linux e d :
  platform_system e = "Linux" -> get_linux_distro e = ([], Ret d) ->
  check_os e = ([Print ("OS: " ++ match d with Some s => s | None => "None" end)],
                Ret tt).
Proof. intros HL Hd. unfold check_os. cbv zeta. rewrite HL. simpl. now rewrite Hd. Qed.

Lemma update_runs h config e flag cmd :
  get_system_setting h config "auto_update" (PBool false) = ([], Ret flag) ->
  truthy h flag = true ->
  table_get (detect_package_manager e) update_commands = Some cmd ->
  auto_update_system h config e =
    ([Print ("[RUN] " ++ String.concat " " cmd); Run cmd], Ret tt).
Proof.
  intros Hf Ht Hc. unfold auto_update_system. rewrite Hf, bind_ret_nil, Ht.
  cbv zeta. cbn [negb]. rewrite Hc. reflexivity.
Qed.

Lemma update_disabled h config e flag :
  get_system_setting h config "auto_update" (PBool false) = ([], Ret flag) ->
  truthy h flag = false ->
  auto_update_system h config e = ([Print "[INFO] Auto update disabled"], Ret tt).
Proof.
  intros Hf Ht. unfold auto_update_system. rewrite Hf, bind_ret_nil, Ht.
  reflexivity.
Qed.

Lemma docker_runs h config e flag cmd :
  get_system_setting h config "install_docker" (PBool false) = ([], Ret flag) ->
  truthy h flag = true ->
  table_get (detect_package_manager e) docker_packages = Some cmd ->
  install_docker h config e =
    ([Print "[INFO] Installing Docker"; Run cmd], Ret tt).
Proof.
  intros Hf Ht Hc. unfold install_docker. rewrite Hf, bind_ret_nil, Ht.
  cbv zeta. cbn [negb]. rewrite Hc. reflexivity.
Qed.

Lemma install_each_strings e mk ps :
  install_each e mk (map PStr ps) =
    (flat_map (fun p =>
       if which e p then [Print ("[OK] " ++ p ++ " already installed")]
       else [Print ("[INSTALL] " ++ String.concat " " (mk p)); Run (mk p)]) ps,
     Ret tt).
Proof.
  induction ps as [|p ps IH]; [reflexivity|].
  cbn [map install_each flat_map]. unfold is_installed.
  destruct (which e p); unfold mbind, PyM_bind, print, run; simpl;
    rewrite IH; reflexivity.
Qed.

Lemma install_each_stops e mk ps bad rest :
  (forall s, bad <> PStr s) ->
  install_each e mk (app (map PStr ps) (bad :: rest)) =
    (flat_map (fun p =>
       if which e p then [Print ("[OK] " ++ p ++ " already installed")]
       else [Print ("[INSTALL] " ++ String.concat " " (mk p)); Run (mk p)]) ps,
     Exc TypeError).
Proof.
  intros Hb. induction ps as [|p ps IH].
  - destruct bad; try reflexivity. exfalso. exact (Hb s eq_refl).
  - cbn [map app install_each flat_map]. unfold is_installed.
    destruct (which e p); unfold mbind, PyM_bind, print, run; simpl;
      rewrite IH; reflexivity.
Qed.

(** The install step once it reaches its loop. *)
Lemma install_reaches_loop h config e flag pkgs mk :
  get_system_setting h config "auto_install" (PBool false) = ([], Ret flag) ->
  truthy h flag = true ->
  dict_get h config "packages" (PList []) = ([], Ret pkgs) ->
  truthy h pkgs = true ->
  table_get (detect_package_manager e) INSTALL_COMMANDS = Some mk ->
  auto_install_packages h config e =
    (Print ("[INFO] Installing packages using: " ++ detect_package_manager e)
       :: (py_iter h pkgs ≫= install_each e mk).1,
     (py_iter h pkgs ≫= install_each e mk).2).
Proof.
  intros Hf Ht Hp Hpt Hm. unfold auto_install_packages.
  rewrite Hf, bind_ret_nil, Ht. cbn [negb]. rewrite Hp, bind_ret_nil, Hpt.
  cbv zeta. rewrite Hm. unfold mbind at 1, PyM_bind at 1, print.
  destruct (py_iter h pkgs ≫= install_each e mk). reflexivity.
Qed.

Lemma enable_each_strings h ss :
  enable_each h (map PStr ss) =
    (flat_map (fun s => [Print ("[SERVICE] Enabling " ++ s);
                         Run ["sudo"; "systemctl"; "enable"; "--now"; s]]) ss,
     Ret tt).
Proof.
  induction ss as [|s ss IH]; [reflexivity|].
  cbn [map enable_each flat_map]. unfold mbind, PyM_bind, print, run.
  simpl. rewrite IH. reflexivity.
Qed.

Lemma services_run h config e ss :
  get_system_setting h config "enable_services" (PList []) =
    ([], Ret (PList (map PStr ss))) ->
  ss <> [] -> which e "systemctl" = true ->
  enable_services h config e =
    (flat_map (fun s => [Print ("[SERVICE] Enabling " ++ s);
                         Run ["sudo"; "systemctl"; "enable"; "--now"; s]]) ss,
     Ret tt).
Proof.
  intros Hs Hne Hw. unfold enable_services. rewrite Hs, bind_ret_nil.
  assert (Ht : truthy h (PList (map PStr ss)) = true)
    by (destruct ss; [contradiction|reflexivity]).
  rewrite Ht, Hw. cbn [negb]. unfold py_iter.
  unfold mbind at 1, PyM_bind at 1, mret, PyM_ret.
  rewrite enable_each_strings. reflexivity.
Qed.

Lemma find_pretty_name_skip pre rest :
  Forall (fun line => String.prefix "PRETTY_NAME" line = false) pre ->
  find_pretty_name (app pre rest) = find_pretty_name rest.
Proof.
  induction pre as [|line pre IH]; intros Hp; [reflexivity|].
  apply Forall_cons in Hp as [H1 Hp]. simpl. rewrite H1. now apply IH.
Qed.

(** ** The properties *)

(** merge_config, whatever its arguments, when it returns normally has
    only appended entries at the end of dicts: no dict loses an entry, and
    no key changes its value or its position. *)
Theorem merge_config_appends_only fuel d c h h' l it :
  merge_config fuel d c h = Ret h' -> h !! l = Some it ->
  exists ext, h' !! l = Some (app it ext).
Proof. intros E El. exact (merge_config_grows fuel d c h h' E l it El). Qed.

Lemma merge_config_appends_only_witness :
  exists ext, merged_user_heap !! 4%positive =
    Some (app [("app", PStr "custom"); ("system", PDict 5%positive)] ext).
Proof.
  apply (merge_config_appends_only recursion_limit DEFAULT_CONFIG 4%positive
           user_heap merged_user_heap); vm_compute; reflexivity.
Defined.

(** load_config on a file that parses to a falsy value (an empty file,
    null, false, 0, an empty list or mapping) prints nothing and stores and
    returns a new dict holding exactly DEFAULT_CONFIG's entries in order,
    its app and system values being DEFAULT_CONFIG's own dicts. *)
Theorem load_config_falsy_file h v :
  holds_default h -> truthy h v = false ->
  exists l, h !! l = None /\ ~ is_default_loc l /\
    load_config (ConfigFile v) h =
      ([], Ret (<[l := default_top]> h, PDict l, ConfigFile (PDict l))).
Proof.
  intros Hd Ht. exists (fresh (dom h)). split; [apply fresh_dom_none|].
  split; [now apply alloc_not_default|]. now apply load_falsy.
Qed.

Lemma load_config_falsy_file_witness :
  exists l, default_heap !! l = None /\ ~ is_default_loc l /\
    load_config (ConfigFile PNone) default_heap =
      ([], Ret (<[l := default_top]> default_heap, PDict l,
                ConfigFile (PDict l))).
Proof. apply load_config_falsy_file; [repeat split|reflexivity]. Defined.

Lemma main_default_cfg h l e :
  h !! l = Some default_top -> h !! default_system_loc = Some default_system ->
  main h (PDict l) e = main default_heap (PDict DEFAULT_CONFIG) e.
Proof.
  intros El Es.
  unfold main, auto_update_system, install_docker, auto_install_packages,
    enable_services.
  rewrite !(default_cfg_setting h l _ _ El Es).
  rewrite (default_cfg_packages h l _ El).
  reflexivity.
Qed.

Lemma program_no_file h e :
  holds_default h ->
  program NoConfigFile h e =
    let '(t, o) := main default_heap (PDict DEFAULT_CONFIG) e in
    (Print "[CONFIG] Creating config.yaml" :: t, o).
Proof.
  intros Hd. unfold program. rewrite (load_no_file h Hd), bind_ret.
  rewrite (main_default_cfg _ (fresh (dom h))).
  - reflexivity.
  - apply lookup_insert_eq.
  - rewrite lookup_insert_ne; [apply Hd|].
    intros E. apply (alloc_not_default h Hd). rewrite E. right. now right.
Qed.

Lemma program_falsy h v e :
  holds_default h -> truthy h v = false ->
  program (ConfigFile v) h e = main default_heap (PDict DEFAULT_CONFIG) e.
Proof.
  intros Hd Ht. unfold program. rewrite (load_falsy h v Hd Ht), bind_ret_nil.
  apply main_default_cfg.
  - apply lookup_insert_eq.
  - rewrite lookup_insert_ne; [apply Hd|].
    intros E. apply (alloc_not_default h Hd). rewrite E. right. now right.
Qed.

(** A config file parsing to a falsy value gives the same run as having
    no config file, except for the "[CONFIG] Creating config.yaml" line
    that only the latter prints first. *)
Theorem empty_config_runs_as_first_run h v e :
  holds_default h -> truthy h v = false ->
  program NoConfigFile h e =
    let '(t, o) := program (ConfigFile v) h e in
    (Print "[CONFIG] Creating config.yaml" :: t, o).
Proof.
  intros Hd Ht. rewrite (program_falsy h v e Hd Ht). now apply program_no_file.
Qed.

Lemma empty_config_runs_as_first_run_witness :
  program NoConfigFile default_heap systemd_host =
    let '(t, o) := program (ConfigFile (PList [])) default_heap systemd_host in
    (Print "[CONFIG] Creating config.yaml" :: t, o).
Proof. apply empty_config_runs_as_first_run; [repeat split|reflexivity]. Defined.

(** The first run (no config file) on a Linux host whose package manager
    is supported by all three tables and which has systemd: after the
    creation line, the banner and the OS line, it updates the system,
    installs Docker, goes through git, curl and htop in that order
    (skipping those on the path), and enables the docker service. *)
Theorem first_run_trace h e d ucmd dcmd mk :
  holds_default h -> platform_system e = "Linux" ->
  get_linux_distro e = ([], Ret d) ->
  table_get (detect_package_manager e) update_commands = Some ucmd ->
  table_get (detect_package_manager e) docker_packages = Some dcmd ->
  table_get (detect_package_manager e) INSTALL_COMMANDS = Some mk ->
  which e "systemctl" = true ->
  program NoConfigFile h e =
    (Print "[CONFIG] Creating config.yaml" :: app banner
       (Print ("OS: " ++ match d with Some s => s | None => "None" end) ::
        Print ("[RUN] " ++ String.concat " " ucmd) :: Run ucmd ::
        Print "[INFO] Installing Docker" :: Run dcmd ::
        Print ("[INFO] Installing packages using: " ++ detect_package_manager e) ::
        app (flat_map (fun p =>
               if which e p then [Print ("[OK] " ++ p ++ " already installed")]
               else [Print ("[INSTALL] " ++ String.concat " " (mk p)); Run (mk p)])
               ["git"; "curl"; "htop"])
          [Print "[SERVICE] Enabling docker";
           Run ["sudo"; "systemctl"; "enable"; "--now"; "docker"]]),
     Ret tt).
Proof.
  intros Hd HL Hdist Hu Hdk Hm Hs.
  rewrite (program_no_file h e Hd). unfold main.
  rewrite (check_os_linux e d HL Hdist).
  rewrite (update_runs default_heap (PDict DEFAULT_CONFIG) e (PBool true) ucmd eq_refl eq_refl Hu).
  rewrite (docker_runs default_heap (PDict DEFAULT_CONFIG) e (PBool true) dcmd eq_refl eq_refl Hdk).
  rewrite (install_reaches_loop default_heap (PDict DEFAULT_CONFIG) e (PBool true)
             (PList (map PStr ["git"; "curl"; "htop"])) mk
             eq_refl eq_refl eq_refl eq_refl Hm).
  cbn [py_iter]. rewrite bind_mret, install_each_strings.
  rewrite (services_run default_heap (PDict DEFAULT_CONFIG) e ["docker"] eq_refl ltac:(discriminate) Hs).
  reflexivity.
Qed.

Lemma first_run_trace_witness :
  program NoConfigFile default_heap systemd_host =
    (Print "[CONFIG] Creating config.yaml" :: app banner
       (Print ("OS: " ++ match Some "Arch Linux" with Some s => s | None => "None" end) ::
        Print ("[RUN] " ++ String.concat " " ["sudo"; "pacman"; "-Syu"]) ::
        Run ["sudo"; "pacman"; "-Syu"] ::
        Print "[INFO] Installing Docker" ::
        Run ["sudo"; "pacman"; "-S"; "--noconfirm"; "docker"] ::
        Print ("[INFO] Installing packages using: "
               ++ detect_package_manager systemd_host) ::
        app (flat_map (fun p =>
               if which systemd_host p
               then [Print ("[OK] " ++ p ++ " already installed")]
               else [Print ("[INSTALL] " ++ String.concat " "
                              ["sudo"; "pacman"; "-S"; "--noconfirm"; p]);
                     Run ["sudo"; "pacman"; "-S"; "--noconfirm"; p]])
               ["git"; "curl"; "htop"])
          [Print "[SERVICE] Enabling docker";
           Run ["sudo"; "systemctl"; "enable"; "--now"; "docker"]]),
     Ret tt).
Proof.
  apply (first_run_trace default_heap systemd_host (Some "Arch Linux")
           ["sudo"; "pacman"; "-Syu"]
           ["sudo"; "pacman"; "-S"; "--noconfirm"; "docker"]
           (fun p => ["sudo"; "pacman"; "-S"; "--noconfirm"; p]));
    first [repeat split | vm_compute; reflexivity].
Defined.



(** On Linux, if the first PRETTY_NAME line of /etc/os-release has no "=",
    get_linux_distro raises IndexError: main stops right after the banner,
    printing no OS line and running nothing. *)
Theorem pretty_name_without_eq_aborts h config e pre line post :
  platform_system e = "Linux" ->
  os_release e = Some (app pre (line :: post)) ->
  Forall (fun l => String.prefix "PRETTY_NAME" l = false) pre ->
  String.prefix "PRETTY_NAME" line = true ->
  after_first_eq line = None ->
  main h config e = (banner, Exc IndexError).
Proof.
  intros HL Ho Hpre Hl Hv.
  assert (G : get_linux_distro e = ([], Exc IndexError)).
  { unfold get_linux_distro. rewrite Ho, find_pretty_name_skip by exact Hpre.
    simpl. now rewrite Hl, Hv. }
  unfold main, check_os. cbv zeta. rewrite HL. simpl String.eqb. cbv iota.
  rewrite G. reflexivity.
Qed.

Lemma pretty_name_without_eq_aborts_witness :
  main cfg_heap (PDict 10%positive) bad_pretty_name_host = (banner, Exc IndexError).
Proof.
  apply (pretty_name_without_eq_aborts cfg_heap (PDict 10%positive)
           bad_pretty_name_host ["NAME=Arch Linux" ++ nl] ("PRETTY_NAME" ++ nl) []);
    first [reflexivity | vm_compute; repeat constructor].
Defined.

(** A "packages" value that is a string rather than a list is iterated
    character by character: each one-character string is checked on the
    path and, if absent, installed, in order. *)
Theorem string_packages_by_character h config e flag s mk :
  get_system_setting h config "auto_install" (PBool false) = ([], Ret flag) ->
  truthy h flag = true ->
  dict_get h config "packages" (PList []) = ([], Ret (PStr s)) ->
  s <> "" ->
  table_get (detect_package_manager e) INSTALL_COMMANDS = Some mk ->
  auto_install_packages h config e =
    (Print ("[INFO] Installing packages using: " ++ detect_package_manager e)
     :: flat_map (fun p =>
          if which e p then [Print ("[OK] " ++ p ++ " already installed")]
          else [Print ("[INSTALL] " ++ String.concat " " (mk p)); Run (mk p)])
          (map (fun c => String c EmptyString) (list_ascii_of_string s)),
     Ret tt).
Proof.
  intros Hf Ht Hp Hne Hm.
  assert (Hs : truthy h (PStr s) = true).
  { simpl. destruct (String.eqb_spec s ""); [contradiction|reflexivity]. }
  rewrite (install_reaches_loop h config e flag (PStr s) mk Hf Ht Hp Hs Hm).
  cbn [py_iter]. rewrite bind_mret.
  rewrite <- (map_map (fun c => String c EmptyString) PStr).
  now rewrite install_each_strings.
Qed.

Lemma string_packages_by_character_witness :
  auto_install_packages str_pkgs_heap (PDict 10%positive) arch_host =
    (Print ("[INFO] Installing packages using: "
            ++ detect_package_manager arch_host)
     :: flat_map (fun p =>
          if which arch_host p then [Print ("[OK] " ++ p ++ " already installed")]
          else [Print ("[INSTALL] " ++ String.concat " "
                         ["sudo"; "pacman"; "-S"; "--noconfirm"; p]);
                Run ["sudo"; "pacman"; "-S"; "--noconfirm"; p]])
          (map (fun c => String c EmptyString) (list_ascii_of_string "vim")),
     Ret tt).
Proof.
  apply (string_packages_by_character str_pkgs_heap (PDict 10%positive) arch_host
           (PBool true) "vim" (fun p => ["sudo"; "pacman"; "-S"; "--noconfirm"; p]));
    first [reflexivity | discriminate].
Defined.

(** A package entry that is not a string (a number, a boolean, null, a
    list or a mapping) makes the install step raise TypeError when the
    loop reaches it: the packages before it are handled as usual, the ones
    after it are never attempted. *)
Theorem non_string_package_raises h config e flag ps bad rest mk :
  get_system_setting h config "auto_install" (PBool false) = ([], Ret flag) ->
  truthy h flag = true ->
  dict_get h config "packages" (PList []) =
    ([], Ret (PList (app (map PStr ps) (bad :: rest)))) ->
  (forall s, bad <> PStr s) ->
  table_get (detect_package_manager e) INSTALL_COMMANDS = Some mk ->
  auto_install_packages h config e =
    (Print ("[INFO] Installing packages using: " ++ detect_package_manager e)
     :: flat_map (fun p =>
          if which e p then [Print ("[OK] " ++ p ++ " already installed")]
          else [Print ("[INSTALL] " ++ String.concat " " (mk p)); Run (mk p)])
          ps,
     Exc TypeError).
Proof.
  intros Hf Ht Hp Hb Hm.
  assert (Hs : truthy h (PList (app (map PStr ps) (bad :: rest))) = true).
  { simpl. rewrite length_app. simpl. now rewrite Nat.add_succ_r. }
  rewrite (install_reaches_loop h config e flag _ mk Hf Ht Hp Hs Hm).
  cbn [py_iter]. rewrite bind_mret. now rewrite install_each_stops.
Qed.

Lemma non_string_package_raises_witness :
  auto_install_packages bad_pkgs_heap (PDict 10%positive) arch_host =
    (Print ("[INFO] Installing packages using: "
            ++ detect_package_manager arch_host)
     :: flat_map (fun p =>
          if which arch_host p then [Print ("[OK] " ++ p ++ " already installed")]
          else [Print ("[INSTALL] " ++ String.concat " "
                         ["sudo"; "pacman"; "-S"; "--noconfirm"; p]);
                Run ["sudo"; "pacman"; "-S"; "--noconfirm"; p]])
          ["git"],
     Exc TypeError).
Proof.
  apply (non_string_package_raises bad_pkgs_heap (PDict 10%positive) arch_host
           (PBool true) ["git"] (PInt 7) [PStr "curl"]
           (fun p => ["sudo"; "pacman"; "-S"; "--noconfirm"; p]));
    first [reflexivity | discriminate].
Defined.

(** A "system" value that is not a mapping (true, a string, a list, null)
    makes the first step's config.get("system", {}).get(...) raise
    AttributeError: when check_os returns, main stops right after its OS
    line, running no command. *)
Theorem non_mapping_system_aborts h l it v e t :
  h !! l = Some it -> assoc "system" it = Some v -> non_dict v ->
  check_os e = (t, Ret tt) ->
  main h (PDict l) e = (app banner t, Exc AttributeError).
Proof.
  intros El Es Hv Hc. unfold main. rewrite Hc.
  unfold auto_update_system, get_system_setting, dict_get, dict_get_opt.
  rewrite El, bind_mret, Es.
  destruct v; try contradiction; simpl; now rewrite ?app_nil_r.
Qed.

Lemma non_mapping_system_aborts_witness :
  main scalar_system_heap (PDict 10%positive) bare_host =
    (app banner [Print "OS: Unknown Linux"], Exc AttributeError).
Proof.
  apply (non_mapping_system_aborts scalar_system_heap 10%positive
           [("system", PBool true)] (PBool true));
    first [reflexivity | exact I].
Defined.

(** With systemd present and a non-empty list of service names,
    enable_services prints one line and runs "sudo systemctl enable --now"
    once for each service, in order. *)
Theorem enable_services_runs_each h config e ss :
  get_system_setting h config "enable_services" (PList []) =
    ([], Ret (PList (map PStr ss))) ->
  ss <> [] -> which e "systemctl" = true ->
  enable_services h config e =
    (flat_map (fun s => [Print ("[SERVICE] Enabling " ++ s);
                         Run ["sudo"; "systemctl"; "enable"; "--now"; s]]) ss,
     Ret tt).
Proof. apply services_run. Qed.

Lemma enable_services_runs_each_witness :
  enable_services services_heap (PDict 10%positive) systemd_host =
    (flat_map (fun s => [Print ("[SERVICE] Enabling " ++ s);
                         Run ["sudo"; "systemctl"; "enable"; "--now"; s]])
       ["docker"; "sshd"],
     Ret tt).
Proof.
  apply (enable_services_runs_each services_heap (PDict 10%positive) systemd_host
           ["docker"; "sshd"]); first [reflexivity | discriminate].
Defined.

(** A non-mapping false-like value a user gives to auto_update in
    config.yaml survives load_config (the default True never overrides
    it), so the update step of the run reports it disabled. *)
Theorem user_disabled_update_stays_disabled h c cur s sit v e :
  holds_default h -> fresh_current h c ->
  h !! c = Some cur -> assoc "system" cur = Some (PDict s) ->
  h !! s = Some sit -> assoc "auto_update" sit = Some v ->
  non_dict v -> truthy h v = false ->
  exists tr h',
    load_config (ConfigFile (PDict c)) h =
      (tr, Ret (h', PDict c, ConfigFile (PDict c))) /\
    auto_update_system h' (PDict c) e =
      ([Print "[INFO] Auto update disabled"], Ret tt).
Proof.
  intros Hd Hc Ec Es Esit Ev Hv Ht.
  destruct (merge_default_spec h c Hd Hc) as (h' & E & G & _).
  assert (Hct : truthy h (PDict c) = true).
  { simpl. unfold dict_size. rewrite Ec.
    destruct cur; [discriminate|reflexivity]. }
  exists [], h'. split.
  - unfold load_config. rewrite Hct. cbn -[merge_config]. unfold lift.
    rewrite E. reflexivity.
  - destruct (G _ _ Ec) as [e1 E1]. destruct (G _ _ Esit) as [e2 E2].
    apply (update_disabled _ _ _ v).
    + apply (get_system_setting_found h' c (app cur e1) s (app sit e2));
        auto using assoc_app_l.
    + now rewrite (truthy_non_dict h' h v Hv).
Qed.

Lemma user_disabled_update_stays_disabled_witness :
  exists tr h',
    load_config (ConfigFile (PDict 4%positive)) user_heap =
      (tr, Ret (h', PDict 4%positive, ConfigFile (PDict 4%positive))) /\
    auto_update_system h' (PDict 4%positive) arch_host =
      ([Print "[INFO] Auto update disabled"], Ret tt).
Proof.
  apply (user_disabled_update_stays_disabled user_heap 4%positive
           [("app", PStr "custom"); ("system", PDict 5%positive)] 5%positive
           [("auto_update", PBool false)] (PBool false));
    first [ reflexivity | exact I | repeat split; fail
          | apply fresh_currentb_sound; vm_compute; reflexivity ].
Defined.


